(** * GraphQL-to-OpenAPI converter: a shallow embedding of
      [src/lib/GraphQLToOpenAPIConverter.ts]

    The converter builds its output by mutating JavaScript objects that are
    shared between the output document, the selection stack, the fragment
    table and the scalar cache.  The embedding therefore keeps an explicit
    object heap: every object or array literal of the source allocates a
    cell, property writes update a cell in place, and two references to
    the same cell alias.

    Modelling boundary.  Property reads return own properties only: member
    names that the JavaScript engine supplies through built-in prototypes
    ([constructor], [toString], [length] of arrays, ...) are not modelled,
    so statements about dictionary keys (type, scalar, field and fragment
    names) are statements about names that are not such members.  The
    GraphQL library functions used by the source ([parse], [validate],
    [buildSchema], [buildClientSchema]) are parameters of the model;
    [visit] with [visitWithTypeInfo] is modelled by the sequence of
    enter/leave events it dispatches, each carrying what the handlers read
    from the type cursor. *)

From Stdlib Require Import String Ascii List Arith Lia Bool.
From Stdlib Require Import DecimalString.
Import ListNotations.
Set Warnings "-register-all".
Local Open Scope string_scope.
Local Open Scope list_scope.

(** ** JavaScript values, objects and the heap *)

Module JS.

Definition loc := nat.

Inductive value : Type :=
| VUndefined
| VNull
| VBool (b : bool)
| VNumber (n : nat)
| VString (s : string)
| VRef (l : loc).

(** An array may carry named properties besides its elements. *)
Inductive object : Type :=
| JSObject (props : list (string * value))
| JSArray (elems : list value) (props : list (string * value)).

(** The newest cell is at the head; the address of a cell is the number
    of cells allocated before it. *)
Definition heap := list object.

Fixpoint heap_lookup (h : heap) (l : loc) : option object :=
  match h with
  | [] => None
  | o :: h' => if Nat.eqb l (length h') then Some o else heap_lookup h' l
  end.

Fixpoint heap_update (h : heap) (l : loc) (o' : object) : heap :=
  match h with
  | [] => []
  | o :: h' =>
      if Nat.eqb l (length h') then o' :: h' else o :: heap_update h' l o'
  end.

Inductive exn : Type :=
| TypeError
| UnknownScalarError (message : string)
| MissingSchemaError (message : string)
| Error (message : string).

Inductive outcome (A : Type) : Type :=
| Ok (a : A) (h : heap)
| Throw (e : exn) (h : heap).
Arguments Ok {A} a h.
Arguments Throw {A} e h.

Definition M (A : Type) : Type := heap -> outcome A.

Definition ret {A} (a : A) : M A := fun h => Ok a h.

Definition bind {A B} (m : M A) (k : A -> M B) : M B :=
  fun h => match m h with
           | Ok a h' => k a h'
           | Throw e h' => Throw e h'
           end.

Definition throw {A} (e : exn) : M A := fun h => Throw e h.

Definition value_eqb (a b : value) : bool :=
  match a, b with
  | VUndefined, VUndefined => true
  | VNull, VNull => true
  | VBool x, VBool y => Bool.eqb x y
  | VNumber x, VNumber y => Nat.eqb x y
  | VString x, VString y => String.eqb x y
  | VRef x, VRef y => Nat.eqb x y
  | _, _ => false
  end.

Definition truthy (v : value) : bool :=
  match v with
  | VUndefined | VNull => false
  | VBool b => b
  | VNumber n => negb (Nat.eqb n 0)
  | VString s => negb (String.eqb s EmptyString)
  | VRef _ => true
  end.

(** [a || undefined] *)
Definition or_undefined (v : value) : value :=
  if truthy v then v else VUndefined.

(** Own properties, in insertion order. *)
Fixpoint assoc {A} (k : string) (ps : list (string * A)) : option A :=
  match ps with
  | [] => None
  | (k', v) :: ps' => if String.eqb k k' then Some v else assoc k ps'
  end.

(** [o[k] = v]: an existing key keeps its place, a new key goes last. *)
Fixpoint assoc_set {A} (k : string) (v : A) (ps : list (string * A))
  : list (string * A) :=
  match ps with
  | [] => [(k, v)]
  | (k', v') :: ps' =>
      if String.eqb k k' then (k, v) :: ps' else (k', v') :: assoc_set k v ps'
  end.

Definition own (o : object) : list (string * value) :=
  match o with
  | JSObject ps => ps
  | JSArray _ ps => ps
  end.

(** [v[k]]; [None] stands for the TypeError of reading a property of
    [undefined] or [null]. *)
Definition get_prop (h : heap) (v : value) (k : string) : option value :=
  match v with
  | VUndefined | VNull => None
  | VRef l =>
      match heap_lookup h l with
      | Some o => Some (match assoc k (own o) with
                        | Some x => x
                        | None => VUndefined
                        end)
      | None => Some VUndefined
      end
  | _ => Some VUndefined
  end.

Definition get (v : value) (k : string) : M value :=
  fun h => match get_prop h v k with
           | Some x => Ok x h
           | None => Throw TypeError h
           end.

(** [v?.k] *)
Definition get_opt (v : value) (k : string) : M value :=
  match v with
  | VUndefined | VNull => ret VUndefined
  | _ => get v k
  end.

(** [v[k] = x] (strict mode: a write through a primitive is a TypeError). *)
Definition set (v : value) (k : string) (x : value) : M unit :=
  fun h =>
    match v with
    | VRef l =>
        match heap_lookup h l with
        | Some (JSObject ps) =>
            Ok tt (heap_update h l (JSObject (assoc_set k x ps)))
        | Some (JSArray es ps) =>
            Ok tt (heap_update h l (JSArray es (assoc_set k x ps)))
        | None => Ok tt h
        end
    | _ => Throw TypeError h
    end.

Definition alloc (o : object) : M value :=
  fun h => Ok (VRef (length h)) (o :: h).

Definition new_object (ps : list (string * value)) : M value :=
  alloc (JSObject ps).

Definition new_array (es : list value) : M value :=
  alloc (JSArray es []).

Definition isArray (h : heap) (v : value) : bool :=
  match v with
  | VRef l => match heap_lookup h l with
              | Some (JSArray _ _) => true
              | _ => false
              end
  | _ => false
  end.

Definition elements (h : heap) (v : value) : list value :=
  match v with
  | VRef l => match heap_lookup h l with
              | Some (JSArray es _) => es
              | _ => []
              end
  | _ => []
  end.

(** [v.push(x)] *)
Definition push (v : value) (x : value) : M unit :=
  fun h =>
    match v with
    | VRef l =>
        match heap_lookup h l with
        | Some (JSArray es ps) => Ok tt (heap_update h l (JSArray (es ++ [x]) ps))
        | _ => Throw TypeError h
        end
    | _ => Throw TypeError h
    end.

Definition string_of_nat (n : nat) : string :=
  NilEmpty.string_of_uint (Nat.to_uint n).

Fixpoint indexed {A} (i : nat) (xs : list A) : list (string * A) :=
  match xs with
  | [] => []
  | x :: xs' => (string_of_nat i, x) :: indexed (S i) xs'
  end.

Fixpoint chars (s : string) : list value :=
  match s with
  | EmptyString => []
  | String c s' => VString (String c EmptyString) :: chars s'
  end.

(** The own enumerable properties copied by [{...v}] and by
    [Object.assign({}, v)]. *)
Definition enumerable (h : heap) (v : value) : list (string * value) :=
  match v with
  | VRef l =>
      match heap_lookup h l with
      | Some (JSObject ps) => ps
      | Some (JSArray es ps) => indexed 0 es ++ ps
      | None => []
      end
  | VString s => indexed 0 (chars s)
  | _ => []
  end.

(** [{...v, k1: x1, ...}] *)
Definition spread (v : value) (extra : list (string * value)) : M value :=
  fun h =>
    new_object
      (fold_left (fun ps kx => assoc_set (fst kx) (snd kx) ps) extra
         (enumerable h v)) h.

(** Trees: object and array literals on the way in, structural snapshots
    of the heap on the way out. *)
Inductive tree : Type :=
| Leaf (v : value)
| Arr (elems : list tree)
| Obj (props : list (string * tree)).

Definition Str (s : string) : tree := Leaf (VString s).

Fixpoint build (t : tree) (h : heap) : value * heap :=
  match t with
  | Leaf v => (v, h)
  | Arr ts =>
      let fix go (ts : list tree) (h : heap) : list value * heap :=
        match ts with
        | [] => ([], h)
        | t :: ts' =>
            let (v, h1) := build t h in
            let (vs, h2) := go ts' h1 in
            (v :: vs, h2)
        end in
      let (vs, h1) := go ts h in
      (VRef (length h1), JSArray vs [] :: h1)
  | Obj ps =>
      let fix go (ps : list (string * tree)) (h : heap)
        : list (string * value) * heap :=
        match ps with
        | [] => ([], h)
        | (k, t) :: ps' =>
            let (v, h1) := build t h in
            let (vs, h2) := go ps' h1 in
            ((k, v) :: vs, h2)
        end in
      let (vs, h1) := go ps h in
      (VRef (length h1), JSObject vs :: h1)
  end.

(** An object or array literal of the source. *)
Definition literal (t : tree) : M value :=
  fun h => let (v, h') := build t h in Ok v h'.

(** The structure reachable from [v]; a reference is left as a leaf when
    the fuel is spent (a cyclic structure) or when it dangles.  Named
    properties of arrays are not part of the structure. *)
Fixpoint snapshot (fuel : nat) (h : heap) (v : value) : tree :=
  match fuel with
  | 0 => Leaf v
  | S fuel' =>
      match v with
      | VRef l =>
          match heap_lookup h l with
          | Some (JSObject ps) =>
              Obj (map (fun kx => (fst kx, snapshot fuel' h (snd kx))) ps)
          | Some (JSArray es _) => Arr (map (snapshot fuel' h) es)
          | None => Leaf v
          end
      | _ => Leaf v
      end
  end.

Definition is_undefined (t : tree) : bool :=
  match t with
  | Leaf VUndefined => true
  | _ => false
  end.

(** What [JSON.stringify] keeps: a property whose value is [undefined] is
    dropped, an [undefined] array element becomes [null]. *)
Fixpoint to_json (t : tree) : tree :=
  match t with
  | Leaf v => Leaf v
  | Arr ts =>
      Arr (map (fun t => if is_undefined t then Leaf VNull else to_json t) ts)
  | Obj ps =>
      let fix go (ps : list (string * tree)) : list (string * tree) :=
        match ps with
        | [] => []
        | (k, t) :: ps' =>
            if is_undefined t then go ps' else (k, to_json t) :: go ps'
        end in
      Obj (go ps)
  end.

(** The JSON form of what [v] refers to in [h]. *)
Definition json (h : heap) (v : value) : tree :=
  to_json (snapshot (S (length h)) h v).

End JS.

Export JS.

Declare Scope js_scope.
Delimit Scope js_scope with js.
Notation "'let*' x ':=' c 'in' k" := (bind c (fun x => k))
  (at level 10, x pattern, c at level 100, k at level 200) : js_scope.
Notation "c ';;;' k" := (bind c (fun _ => k))
  (at level 100, k at level 200, right associativity) : js_scope.
Local Open Scope js_scope.

(** ** GraphQL types and schema (the part of graphql-js the source reads) *)

Record GraphQLEnumValue : Type := {
  ev_name : string;
  ev_value : value;
}.

(** A named type carries its kind, as the class of the type object does
    in graphql-js; the fields of an object, interface or input object
    type are looked up in the schema by the type's name. *)
Inductive GraphQLType : Type :=
| GraphQLScalarType (name : string)
| GraphQLObjectType (name : string)
| GraphQLInterfaceType (name : string)
| GraphQLUnionType (name : string)
| GraphQLEnumType (name : string) (values : list GraphQLEnumValue)
    (description : value)
| GraphQLInputObjectType (name : string) (description : value)
| GraphQLList (ofType : GraphQLType)
| GraphQLNonNull (ofType : GraphQLType).

Record GraphQLField : Type := {
  field_name : string;
  field_type : GraphQLType;
  field_description : value;
}.

Inductive OperationType : Type := query | mutation | subscription.

Record GraphQLSchema : Type := {
  getRootType : OperationType -> option GraphQLType;
  getType : string -> option GraphQLType;
  getFields : string -> list GraphQLField;
}.

(** [type.toString()] *)
Fixpoint toString (t : GraphQLType) : string :=
  match t with
  | GraphQLScalarType n | GraphQLObjectType n | GraphQLInterfaceType n
  | GraphQLUnionType n | GraphQLEnumType n _ _
  | GraphQLInputObjectType n _ => n
  | GraphQLList t' => "[" ++ toString t' ++ "]"
  | GraphQLNonNull t' => toString t' ++ "!"
  end.

(** [s.replace(/[!]$/, '')] *)
Fixpoint removeFinalBang (s : string) : string :=
  match s with
  | EmptyString => EmptyString
  | String c EmptyString => if Ascii.eqb c "!" then EmptyString else s
  | String c s' => String c (removeFinalBang s')
  end.

(** ** The converter's pure helpers *)

Definition typeMap : list (string * tree) :=
  [ ("ID", Obj [("type", Str "string")]);
    ("[ID]", Obj [("type", Str "array");
                  ("items", Obj [("type", Arr [Str "string"; Str "null"])])]);
    ("[ID!]", Obj [("type", Str "array");
                   ("items", Obj [("type", Str "string")])]);
    ("String", Obj [("type", Str "string")]);
    ("[String!]", Obj [("type", Str "array");
                       ("items", Obj [("type", Str "string")])]);
    ("[String]", Obj [("type", Str "array");
                      ("items", Obj [("type", Arr [Str "string"; Str "null"])])]);
    ("[Int]", Obj [("type", Str "array");
                   ("items", Obj [("type", Arr [Str "integer"; Str "null"])])]);
    ("[Int!]", Obj [("type", Str "array");
                    ("items", Obj [("type", Str "integer")])]);
    ("[Float]", Obj [("type", Str "array");
                     ("items", Obj [("type", Arr [Str "number"; Str "null"])])]);
    ("[Float!]", Obj [("type", Str "array");
                      ("items", Obj [("type", Str "number")])]);
    ("[Boolean]", Obj [("type", Str "array");
                       ("items", Obj [("type", Arr [Str "boolean"; Str "null"])])]);
    ("[Boolean!]", Obj [("type", Str "array");
                        ("items", Obj [("type", Str "boolean")])]);
    ("Int", Obj [("type", Str "integer")]);
    ("Float", Obj [("type", Str "number")]);
    ("Boolean", Obj [("type", Str "boolean")]) ].

Definition isOfTypeOrContains (h : heap) (typeDef : value) (typeName : string)
  : bool :=
  if negb (truthy typeDef) then false
  else match typeDef with
       | VString s => String.eqb typeName s
       | _ =>
           if isArray h typeDef
           then existsb (value_eqb (VString typeName)) (elements h typeDef)
           else false
       end.

(** The unknown-scalar callback: a JavaScript function of the scalar's
    name, which may allocate. *)
Definition Resolver : Type := string -> M value.

Definition getScalarType (typeName : string) (scalarConfig : value)
  (onUnknownScalar : Resolver) : M value :=
  let* cached := get scalarConfig typeName in
  if truthy cached then ret cached
  else
    let* r := onUnknownScalar typeName in
    if truthy r then
      set scalarConfig typeName r ;;;
      ret r
    else throw (UnknownScalarError ("Unknown scalar: " ++ typeName)).

Definition isNonNull (t : GraphQLType) : bool :=
  match t with
  | GraphQLNonNull _ => true
  | _ => false
  end.

Definition unwrapNonNull (t : GraphQLType) : GraphQLType :=
  match t with
  | GraphQLNonNull t' => t'
  | _ => t
  end.

(** [typeInfo.getFieldDef()] is [None] when the cursor has no field
    definition; reading [fieldDef.type] is then a TypeError. *)
Definition fieldDefToOpenApiField (fieldDef : option GraphQLField)
  (scalarConfig : value) (onUnknownScalar : Resolver) : M value :=
  match fieldDef with
  | None => throw TypeError
  | Some fieldDef =>
      let typeName := toString (field_type fieldDef) in
      let description := or_undefined (field_description fieldDef) in
      let nullable := negb (isNonNull (field_type fieldDef)) in
      let type := unwrapNonNull (field_type fieldDef) in
      let* openApiType :=
        new_object [("items", VUndefined); ("properties", VUndefined);
                    ("type", VUndefined); ("enum", VUndefined);
                    ("anyOf", VUndefined); ("description", description)] in
      let typeNameWithoutBang := removeFinalBang typeName in
      match assoc typeNameWithoutBang typeMap with
      | Some entry =>
          (* Object.assign({}, typeMap[...]): the nested [items] object of
             a typeMap entry is never written by the converter, so the
             copy is modelled as a fresh literal. *)
          let* retVal := literal entry in
          (if nullable then
             let* t := get retVal "type" in
             let* a := new_array [t; VString "null"] in
             set retVal "type" a
           else ret tt) ;;;
          spread retVal [("description", description)]
      | None =>
          match type with
          | GraphQLList ofType =>
              set openApiType "type" (VString "array") ;;;
              let itemType := unwrapNonNull ofType in
              (match itemType with
               | GraphQLObjectType _ =>
                   let* items :=
                     literal (Obj [("type", Arr [Str "object"; Str "null"]);
                                   ("properties", Obj [])]) in
                   set openApiType "items" items
               | GraphQLUnionType _ =>
                   let* items := literal (Obj [("anyOf", Arr [])]) in
                   set openApiType "items" items
               | GraphQLScalarType name =>
                   let* items :=
                     getScalarType name scalarConfig onUnknownScalar in
                   set openApiType "items" items ;;;
                   let* items := get openApiType "items" in
                   let* t := get items "type" in
                   let* a := new_array [t; VString "null"] in
                   set items "type" a
               | _ => ret tt
               end) ;;;
              ret openApiType
          | GraphQLObjectType _ =>
              set openApiType "type" (VString "object") ;;;
              let* properties := new_object [] in
              set openApiType "properties" properties ;;;
              ret openApiType
          | GraphQLEnumType _ values _ =>
              let* t := (if nullable
                         then new_array [VString "string"; VString "null"]
                         else ret (VString "string")) in
              set openApiType "type" t ;;;
              let* e := new_array (map ev_value values) in
              set openApiType "enum" e ;;;
              ret openApiType
          | GraphQLUnionType _ =>
              let* anyOf := new_array [] in
              set openApiType "anyOf" anyOf ;;;
              ret openApiType
          | _ =>
              (* [type as GraphQLScalarType]: whatever is left is treated
                 as a scalar and resolved by its name *)
              let* t := getScalarType (toString type) scalarConfig
                          onUnknownScalar in
              spread t [("description", description)]
          end
      end
  end.

(** A read of the heap that cannot fail. *)
Definition inspect {A} (f : heap -> A) : M A := fun h => Ok (f h) h.

(** [Object.entries(fields).reduce(step, init)] *)
Fixpoint reduce {A B} (step : B -> A -> M B) (xs : list A) (init : B) : M B :=
  match xs with
  | [] => ret init
  | x :: xs' => let* acc := step init x in reduce step xs' acc
  end.

Definition describeInputType (obj : option GraphQLType) : string :=
  match obj with
  | Some t => toString t
  | None => "undefined"
  end.

(** [recurseInputType].  The source recurses without a structural
    argument; its depth guard bounds the nesting by 51 calls, which is what
    [fuel] counts ([recurseInputType] below starts it at [51 - depth], and
    [recurseInputTypeFuel_enough] shows that the fuel never runs out before
    the guard fires). *)
Fixpoint recurseInputTypeFuel (fuel : nat) (schema : GraphQLSchema)
  (obj : option GraphQLType) (depth : nat) (scalarConfig : value)
  (onUnknownScalar : Resolver) {struct fuel} : M value :=
  if Nat.ltb 50 depth then
    throw (Error ("depth limit exceeded: " ++ string_of_nat depth))
  else
    match fuel with
    | 0 => throw (Error ("depth limit exceeded: " ++ string_of_nat depth))
    | S fuel' =>
        let recurse t :=
          recurseInputTypeFuel fuel' schema (Some t) (depth + 1) scalarConfig
            onUnknownScalar in
        match obj with
        | Some (GraphQLInputObjectType name description) =>
            let* init := new_object [] in
            let* properties :=
              reduce
                (fun properties f =>
                   let* r := recurse (field_type f) in
                   set properties (field_name f) r ;;;
                   let* p := get properties (field_name f) in
                   set p "description" (field_description f) ;;;
                   ret properties)
                (getFields schema name) init in
            let* type := new_array [VString "object"; VString "null"] in
            new_object [("type", type);
                        ("description", or_undefined description);
                        ("properties", properties)]
        | Some (GraphQLList ofType) =>
            let* type := new_array [VString "array"; VString "null"] in
            let* items := recurse ofType in
            new_object [("type", type); ("items", items)]
        | Some (GraphQLScalarType name) =>
            if String.eqb name "Float" then
              literal (Obj [("type", Arr [Str "number"; Str "null"])])
            else if String.eqb name "Int" then
              literal (Obj [("type", Arr [Str "integer"; Str "null"])])
            else if String.eqb name "String" then
              literal (Obj [("type", Arr [Str "string"; Str "null"])])
            else if String.eqb name "Boolean" then
              literal (Obj [("type", Arr [Str "boolean"; Str "null"])])
            else if String.eqb name "ID" then
              literal (Obj [("type", Arr [Str "string"; Str "null"])])
            else getScalarType name scalarConfig onUnknownScalar
        | Some (GraphQLEnumType name values description) =>
            let* type := new_array [VString "string"; VString "null"] in
            let* enum :=
              new_array (map (fun v => VString (ev_name v)) values) in
            new_object [("type", type);
                        ("description", or_undefined description);
                        ("enum", enum)]
        | Some (GraphQLNonNull ofType) =>
            let* inner := recurse ofType in
            let* retVal := spread inner [] in
            let* type := get retVal "type" in
            let* is_array := inspect (fun h => isArray h type) in
            (if is_array then
               let* entries := inspect (fun h => elements h type) in
               let kept :=
                 filter (fun entry => negb (value_eqb entry (VString "null")))
                   entries in
               let* filtered := new_array kept in
               set retVal "type" filtered ;;;
               match kept with
               | [single] => set retVal "type" single
               | _ => ret tt
               end
             else ret tt) ;;;
            ret retVal
        | _ =>
            throw (Error ("Unexpected InputType: " ++ describeInputType obj))
        end
    end.

Definition recurseInputType (schema : GraphQLSchema)
  (obj : option GraphQLType) (depth : nat) (scalarConfig : value)
  (onUnknownScalar : Resolver) : M value :=
  recurseInputTypeFuel (51 - depth) schema obj depth scalarConfig
    onUnknownScalar.

(** ** Query documents *)

(** The identity of a node's [loc] object: the parser gives every node a
    [loc] of its own. *)
Definition Location := nat.

Inductive SelectionNode : Type :=
| Field (loc : Location) (alias : option string) (name : string)
    (selectionSet : list SelectionNode)
| FragmentSpread (loc : Location) (name : string)
| InlineFragment (loc : Location) (typeCondition : option string)
    (selectionSet : list SelectionNode).

Inductive TypeNode : Type :=
| NamedType (name : string)
| ListType (type : TypeNode)
| NonNullType (type : TypeNode).

Record VariableDefinitionNode : Type := {
  variable : string;
  variable_type : TypeNode;
}.

Inductive DefinitionNode : Type :=
| OperationDefinition (loc : Location) (operation : OperationType)
    (name : option string) (variableDefinitions : list VariableDefinitionNode)
    (selectionSet : list SelectionNode)
| FragmentDefinition (loc : Location) (name : string) (typeCondition : string)
    (selectionSet : list SelectionNode).

Definition DocumentNode := list DefinitionNode.

(** ** The traversal: [visit] with [visitWithTypeInfo]

    The handlers of the source are called at these nodes only; each event
    carries the parts of the node and of the type cursor that its handler
    reads. *)

Inductive Event : Type :=
| EnterFragmentDefinition (loc : Location) (type : option GraphQLType)
| LeaveFragmentDefinition (name : string)
| EnterOperationDefinition (loc : Location) (name : option string)
| LeaveOperationDefinition
| EnterVariableDefinition (variable : string) (inputType : option GraphQLType)
| EnterFragmentSpread (name : string)
| EnterField (loc : Location) (alias : option string) (name : string)
    (fieldDef : option GraphQLField)
| LeaveField (loc : Location)
| EnterInlineFragment (loc : Location)
| LeaveInlineFragment
| LeaveDocument.

Module TypeInfo.

Fixpoint getNamedType (t : GraphQLType) : GraphQLType :=
  match t with
  | GraphQLList t' | GraphQLNonNull t' => getNamedType t'
  | _ => t
  end.

Definition isCompositeType (t : GraphQLType) : bool :=
  match t with
  | GraphQLObjectType _ | GraphQLInterfaceType _ | GraphQLUnionType _ => true
  | _ => false
  end.

Definition isOutputType (t : GraphQLType) : bool :=
  match getNamedType t with
  | GraphQLInputObjectType _ _ => false
  | _ => true
  end.

Definition isInputType (t : GraphQLType) : bool :=
  match getNamedType t with
  | GraphQLScalarType _ | GraphQLEnumType _ _ _
  | GraphQLInputObjectType _ _ => true
  | _ => false
  end.

Definition only (p : GraphQLType -> bool) (t : option GraphQLType)
  : option GraphQLType :=
  match t with
  | Some t' => if p t' then Some t' else None
  | None => None
  end.

Fixpoint typeFromAST (schema : GraphQLSchema) (t : TypeNode)
  : option GraphQLType :=
  match t with
  | NamedType n => getType schema n
  | ListType t' => option_map GraphQLList (typeFromAST schema t')
  | NonNullType t' => option_map GraphQLNonNull (typeFromAST schema t')
  end.

Definition isQueryType (schema : GraphQLSchema) (parentType : GraphQLType)
  : bool :=
  match getRootType schema query with
  | Some q => String.eqb (toString q) (toString parentType)
  | None => false
  end.

Definition SchemaMetaFieldDef : GraphQLField :=
  {| field_name := "__schema";
     field_type := GraphQLNonNull (GraphQLObjectType "__Schema");
     field_description :=
       VString "Access the current type schema of this server." |}.

Definition TypeMetaFieldDef : GraphQLField :=
  {| field_name := "__type";
     field_type := GraphQLObjectType "__Type";
     field_description :=
       VString "Request the type information of a single type." |}.

Definition TypeNameMetaFieldDef : GraphQLField :=
  {| field_name := "__typename";
     field_type := GraphQLNonNull (GraphQLScalarType "String");
     field_description :=
       VString "The name of the current Object type at runtime." |}.

Definition getFieldDef (schema : GraphQLSchema) (parentType : GraphQLType)
  (name : string) : option GraphQLField :=
  if String.eqb name "__schema" && isQueryType schema parentType
  then Some SchemaMetaFieldDef
  else if String.eqb name "__type" && isQueryType schema parentType
  then Some TypeMetaFieldDef
  else if String.eqb name "__typename" && isCompositeType parentType
  then Some TypeNameMetaFieldDef
  else match parentType with
       | GraphQLObjectType n | GraphQLInterfaceType n =>
           find (fun f => String.eqb (field_name f) name) (getFields schema n)
       | _ => None
       end.

(** Events of a selection; [type] is the cursor's type at the node that
    owns the enclosing selection set. *)
Fixpoint selectionEvents (schema : GraphQLSchema) (type : option GraphQLType)
  (sel : SelectionNode) : list Event :=
  let parentType := only isCompositeType (option_map getNamedType type) in
  match sel with
  | Field loc alias name selectionSet =>
      let fieldDef :=
        match parentType with
        | Some p => getFieldDef schema p name
        | None => None
        end in
      let fieldType := only isOutputType (option_map field_type fieldDef) in
      EnterField loc alias name fieldDef
        :: flat_map (selectionEvents schema fieldType) selectionSet
        ++ [LeaveField loc]
  | FragmentSpread _ name => [EnterFragmentSpread name]
  | InlineFragment loc typeCondition selectionSet =>
      let outputType :=
        match typeCondition with
        | Some n => getType schema n
        | None => option_map getNamedType type
        end in
      EnterInlineFragment loc
        :: flat_map (selectionEvents schema (only isOutputType outputType))
             selectionSet
        ++ [LeaveInlineFragment]
  end.

Definition definitionEvents (schema : GraphQLSchema) (def : DefinitionNode)
  : list Event :=
  match def with
  | OperationDefinition loc operation name variableDefinitions selectionSet =>
      let type :=
        only (fun t => match t with GraphQLObjectType _ => true | _ => false end)
          (getRootType schema operation) in
      EnterOperationDefinition loc name
        :: map (fun v => EnterVariableDefinition (variable v)
                           (only isInputType
                              (typeFromAST schema (variable_type v))))
             variableDefinitions
        ++ flat_map (selectionEvents schema type) selectionSet
        ++ [LeaveOperationDefinition]
  | FragmentDefinition loc name typeCondition selectionSet =>
      let type := only isOutputType (getType schema typeCondition) in
      EnterFragmentDefinition loc type
        :: flat_map (selectionEvents schema type) selectionSet
        ++ [LeaveFragmentDefinition name]
  end.

Definition documentEvents (schema : GraphQLSchema) (doc : DocumentNode)
  : list Event :=
  flat_map (definitionEvents schema) doc ++ [LeaveDocument].

End TypeInfo.

(** ** The visitor of [toOpenAPI] *)

Record NoOperationNameError : Type := {
  message : string;
}.

Record Frame : Type := {
  node : Location;
  openApiType : value;
}.

(** The variables of [toOpenAPI] that its handlers close over.
    [currentSelection] and [fragments] never leave the call, so they are
    kept as a list of frames and a dictionary; what they hold are
    references into the heap. *)
Record Visitor : Type := {
  error : option NoOperationNameError;
  operationDef : value;
  currentSelection : list Frame;
  fragments : list (string * value);
  openApiSchema : value;
}.

Inductive Signal : Type := Continue | BREAK.

Definition with_error (e : NoOperationNameError) (s : Visitor) : Visitor :=
  {| error := Some e; operationDef := operationDef s;
     currentSelection := currentSelection s; fragments := fragments s;
     openApiSchema := openApiSchema s |}.

Definition with_operationDef (d : value) (s : Visitor) : Visitor :=
  {| error := error s; operationDef := d;
     currentSelection := currentSelection s; fragments := fragments s;
     openApiSchema := openApiSchema s |}.

Definition with_currentSelection (c : list Frame) (s : Visitor) : Visitor :=
  {| error := error s; operationDef := operationDef s;
     currentSelection := c; fragments := fragments s;
     openApiSchema := openApiSchema s |}.

Definition with_fragments (f : list (string * value)) (s : Visitor)
  : Visitor :=
  {| error := error s; operationDef := operationDef s;
     currentSelection := currentSelection s; fragments := f;
     openApiSchema := openApiSchema s |}.

(** [currentSelection.unshift({node, openApiType})] *)
Definition unshift (n : Location) (t : value) (s : Visitor) : Visitor :=
  with_currentSelection
    ({| node := n; openApiType := t |} :: currentSelection s) s.

(** [currentSelection[0].openApiType] *)
Definition top (s : Visitor) : M value :=
  match currentSelection s with
  | f :: _ => ret (openApiType f)
  | [] => throw TypeError
  end.

(** [currentSelection.shift().openApiType] *)
Definition shift (s : Visitor) : M (value * Visitor) :=
  match currentSelection s with
  | f :: rest => ret (openApiType f, with_currentSelection rest s)
  | [] => throw TypeError
  end.

(** [fragments[name]] *)
Definition fragment (s : Visitor) (name : string) : value :=
  match assoc name (fragments s) with
  | Some v => v
  | None => VUndefined
  end.

Section Visitor.

Variable scalarConfig : value.
Variable onUnknownScalar : Resolver.
Variable schema : GraphQLSchema.
(** [node.loc.source.locationOffset.line], the same for every node of a
    document. *)
Variable line : nat.

Definition FragmentDefinition_enter (loc : Location)
  (fragmentType : option GraphQLType) (s : Visitor) : M (Visitor * Signal) :=
  let* openApiType :=
    match fragmentType with
    | Some (GraphQLUnionType _) => literal (Obj [("anyOf", Arr [])])
    | Some (GraphQLNonNull _) =>
        literal (Obj [("type", Str "object"); ("properties", Obj [])])
    | _ =>
        literal (Obj [("type", Arr [Str "object"; Str "null"]);
                      ("properties", Obj [])])
    end in
  ret (unshift loc openApiType s, Continue).

Definition FragmentDefinition_leave (name : string) (s : Visitor)
  : M (Visitor * Signal) :=
  let* (result, s) := shift s in
  ret (with_fragments (assoc_set name result (fragments s)) s, Continue).

Definition OperationDefinition_enter (loc : Location) (name : option string)
  (s : Visitor) : M (Visitor * Signal) :=
  let* openApiType :=
    literal (Obj [("type", Str "object"); ("properties", Obj [])]) in
  match name with
  | None =>
      ret (with_error
             {| message :=
                  "GraphQLToOpenAPIConverter requires a named " ++
                  "operation on line " ++ string_of_nat line ++ " " ++
                  "of input query" |} s,
           BREAK)
  | Some name =>
      let* paths := get (openApiSchema s) "paths" in
      let* operationDef :=
        literal
          (Obj [("get",
                 Obj [("parameters", Arr []);
                      ("responses",
                       Obj [("200",
                             Obj [("description", Str "response");
                                  ("content",
                                   Obj [("application/json",
                                         Obj [("schema",
                                               Leaf openApiType)])])])])])]) in
      set paths ("/" ++ name) operationDef ;;;
      ret (unshift loc openApiType (with_operationDef operationDef s),
           Continue)
  end.

Definition VariableDefinition (variable : string)
  (inputType : option GraphQLType) (s : Visitor) : M (Visitor * Signal) :=
  let* t := recurseInputType schema inputType 0 scalarConfig onUnknownScalar in
  let* type := get t "type" in
  let* is_container :=
    inspect (fun h => isOfTypeOrContains h type "object"
                      || isOfTypeOrContains h type "array") in
  let* get_ := get (operationDef s) "get" in
  let* parameters := get get_ "parameters" in
  let* admits_null := inspect (fun h => isOfTypeOrContains h type "null") in
  let* description := get t "description" in
  let* schema_ :=
    if is_container then
      let* items := get t "items" in
      let* properties := get t "properties" in
      new_object [("type", type); ("items", items);
                  ("properties", properties)]
    else new_object [("type", type)] in
  let* parameter :=
    new_object [("name", VString variable); ("in", VString "query");
                ("required", VBool (negb admits_null));
                ("schema", schema_);
                ("description", or_undefined description)] in
  push parameters parameter ;;;
  ret (s, Continue).

Definition FragmentSpread_enter (name : string) (s : Visitor)
  : M (Visitor * Signal) :=
  let* openApiType := top s in
  let fragment := fragment s name in
  let* anyOf := get openApiType "anyOf" in
  (if truthy anyOf then
     let* v := get fragment "anyOf" in
     set openApiType "anyOf" v
   else
     let* items := get openApiType "items" in
     if truthy items then
       let* v := get fragment "properties" in
       set items "properties" v
     else
       let* v := get fragment "properties" in
       set openApiType "properties" v) ;;;
  ret (s, Continue).

Definition Field_enter (loc : Location) (alias : option string)
  (name : string) (fieldDef : option GraphQLField) (s : Visitor)
  : M (Visitor * Signal) :=
  let name := match alias with Some a => a | None => name end in
  let* openApiType :=
    fieldDefToOpenApiField fieldDef scalarConfig onUnknownScalar in
  let* parentObj := top s in
  let* parentType := get parentObj "type" in
  let* parent_is_object :=
    inspect (fun h => isOfTypeOrContains h parentType "object") in
  (if parent_is_object then
     let* properties := get parentObj "properties" in
     set properties name openApiType
   else
     let* items := get parentObj "items" in
     let* properties := get items "properties" in
     set properties name openApiType) ;;;
  let* type := get openApiType "type" in
  let* items := get openApiType "items" in
  let* itemsType := get_opt items "type" in
  let* itemsAnyOf := get_opt items "anyOf" in
  let* anyOf := get openApiType "anyOf" in
  let* pushes :=
    inspect (fun h =>
      (isOfTypeOrContains h type "array"
       && isOfTypeOrContains h itemsType "object")
      || (isOfTypeOrContains h type "array" && truthy itemsAnyOf)
      || truthy anyOf
      || isOfTypeOrContains h type "object") in
  ret (if pushes then unshift loc openApiType s else s, Continue).

Definition Field_leave (loc : Location) (s : Visitor)
  : M (Visitor * Signal) :=
  match currentSelection s with
  | [] => throw TypeError
  | f :: _ =>
      if Nat.eqb (node f) loc then
        let* (_, s) := shift s in ret (s, Continue)
      else ret (s, Continue)
  end.

Definition InlineFragment_enter (loc : Location) (s : Visitor)
  : M (Visitor * Signal) :=
  let* openApiType :=
    literal (Obj [("type", Str "object"); ("properties", Obj [])]) in
  let* topOfStack := top s in
  let* items := get topOfStack "items" in
  let* itemsAnyOf := get_opt items "anyOf" in
  (if truthy itemsAnyOf then push itemsAnyOf openApiType
   else
     let* anyOf := get topOfStack "anyOf" in
     push anyOf openApiType) ;;;
  ret (unshift loc openApiType s, Continue).

Definition InlineFragment_leave (s : Visitor) : M (Visitor * Signal) :=
  let* (_, s) := shift s in
  ret (s, Continue).

(** The handler the visitor object registers for an event.  The leave
    handlers of [Document] and [OperationDefinition] only hand
    [openApiSchema] back to [visit]. *)
Definition handle (ev : Event) (s : Visitor) : M (Visitor * Signal) :=
  match ev with
  | EnterFragmentDefinition loc type => FragmentDefinition_enter loc type s
  | LeaveFragmentDefinition name => FragmentDefinition_leave name s
  | EnterOperationDefinition loc name => OperationDefinition_enter loc name s
  | LeaveOperationDefinition => ret (s, Continue)
  | EnterVariableDefinition variable inputType =>
      VariableDefinition variable inputType s
  | EnterFragmentSpread name => FragmentSpread_enter name s
  | EnterField loc alias name fieldDef =>
      Field_enter loc alias name fieldDef s
  | LeaveField loc => Field_leave loc s
  | EnterInlineFragment loc => InlineFragment_enter loc s
  | LeaveInlineFragment => InlineFragment_leave s
  | LeaveDocument => ret (s, Continue)
  end.

(** [visit]: the handlers run in traversal order; [BREAK] ends the walk,
    an exception leaves it. *)
Fixpoint visit (events : list Event) (s : Visitor) : M Visitor :=
  match events with
  | [] => ret s
  | ev :: rest =>
      let* (s', signal) := handle ev s in
      match signal with
      | BREAK => ret s'
      | Continue => visit rest s'
      end
  end.

End Visitor.

(** ** The converter class *)

Definition GraphQLError := string.

(** [string | Source]: a [Source] object has a body and the line at which
    it starts in its enclosing file ([locationOffset.line]); a plain string
    is wrapped by the parser with line 1. *)
Inductive StringOrSource : Type :=
| Text (body : string)
| Source (body : string) (locationOffsetLine : nat).

Definition locationOffsetLine (q : StringOrSource) : nat :=
  match q with
  | Text _ => 1
  | Source _ l => l
  end.

Record GraphQLToOpenAPIResult : Type := {
  result_queryErrors : option (list GraphQLError);
  result_error : option NoOperationNameError;
  result_schemaError : option GraphQLError;
  result_openApiSchema : option value;
}.

Record GraphQLToOpenAPIConverter : Type := {
  graphqlSchema : option GraphQLSchema;
  schemaError : option GraphQLError;
  onUnknownScalar : Resolver;
  scalarConfig : value;
}.

(** The initial value of [openApiSchema]. *)
Definition skeleton : tree :=
  Obj [("openapi", Str "3.1.0");
       ("info",
        Obj [("title", Str "Not specified");
             ("license", Obj [("name", Str "Not specified")]);
             ("version", Str "Not specified")]);
       ("servers", Arr [Obj [("url", Str "/")]]);
       ("paths", Obj [])].

Section Converter.

(** The GraphQL library. *)
Variable IntrospectionQuery : Type.
Variable buildSchema : StringOrSource -> GraphQLError + GraphQLSchema.
Variable buildClientSchema : IntrospectionQuery -> GraphQLError + GraphQLSchema.
Variable parse : StringOrSource -> GraphQLError + DocumentNode.
Variable validate : GraphQLSchema -> DocumentNode -> list GraphQLError.

Definition defaultOnUnknownScalar : Resolver := fun _ => ret VNull.

Definition constructor (schema : option StringOrSource)
  (introspectionSchema : option IntrospectionQuery)
  (onUnknownScalar : option Resolver) (scalarConfig : option value)
  : M GraphQLToOpenAPIConverter :=
  let onUnknownScalar :=
    match onUnknownScalar with
    | Some f => f
    | None => defaultOnUnknownScalar
    end in
  let* scalarConfig :=
    match scalarConfig with
    | Some c => if truthy c then ret c else new_object []
    | None => new_object []
    end in
  let built (r : GraphQLError + GraphQLSchema) :=
    match r with
    | inr s => {| graphqlSchema := Some s; schemaError := None;
                  onUnknownScalar := onUnknownScalar;
                  scalarConfig := scalarConfig |}
    | inl err => {| graphqlSchema := None; schemaError := Some err;
                    onUnknownScalar := onUnknownScalar;
                    scalarConfig := scalarConfig |}
    end in
  match schema, introspectionSchema with
  | Some (Text EmptyString), Some i => ret (built (buildClientSchema i))
  | Some (Text EmptyString), None | None, None =>
      throw (MissingSchemaError
               "neither schema nor introspection schema supplied")
  | Some s, _ => ret (built (buildSchema s))
  | None, Some i => ret (built (buildClientSchema i))
  end.

Definition initialVisitor (openApiSchema : value) : Visitor :=
  {| error := None; operationDef := VUndefined; currentSelection := [];
     fragments := []; openApiSchema := openApiSchema |}.

Definition toOpenAPI (this : GraphQLToOpenAPIConverter)
  (query : StringOrSource) : M GraphQLToOpenAPIResult :=
  match schemaError this with
  | Some schemaError =>
      ret {| result_queryErrors := None; result_error := None;
             result_schemaError := Some schemaError;
             result_openApiSchema := None |}
  | None =>
      match parse query with
      | inl err =>
          ret {| result_queryErrors := Some [err]; result_error := None;
                 result_schemaError := None; result_openApiSchema := None |}
      | inr parsedQuery =>
          match graphqlSchema this with
          | None =>
              throw (Error "Expected undefined to be a GraphQL schema.")
          | Some graphqlSchema =>
              match validate graphqlSchema parsedQuery with
              | (_ :: _) as queryErrors =>
                  ret {| result_queryErrors := Some queryErrors;
                         result_error := None; result_schemaError := None;
                         result_openApiSchema := None |}
              | [] =>
                  let* openApiSchema :=
                    literal skeleton in
                  let* s :=
                    visit (scalarConfig this) (onUnknownScalar this)
                      graphqlSchema (locationOffsetLine query)
                      (TypeInfo.documentEvents graphqlSchema parsedQuery)
                      (initialVisitor openApiSchema) in
                  match error s with
                  | Some error =>
                      ret {| result_queryErrors := None;
                             result_error := Some error;
                             result_schemaError := None;
                             result_openApiSchema := None |}
                  | None =>
                      (* [visit] hands back what the leave handler of
                         [Document] returned: [openApiSchema] itself *)
                      ret {| result_queryErrors := None; result_error := None;
                             result_schemaError := None;
                             result_openApiSchema := Some openApiSchema |}
                  end
              end
          end
      end
  end.

End Converter.

(** ** Reading the output *)

(** [t.k1.k2...] on a JSON tree. *)
Fixpoint at_path (path : list string) (t : tree) : option tree :=
  match path with
  | [] => Some t
  | k :: path' =>
      match t with
      | Obj ps => match assoc k ps with
                  | Some t' => at_path path' t'
                  | None => None
                  end
      | _ => None
      end
  end.

(** [paths[path].get.responses["200"].content["application/json"].schema] *)
Definition responseSchema (path : string) : list string :=
  ["paths"; path; "get"; "responses"; "200"; "content"; "application/json";
   "schema"].

(** [paths[path].get.parameters] *)
Definition parameters (path : string) : list string :=
  ["paths"; path; "get"; "parameters"].

(** The traversal has arrived at state [s] and heap [h] after dispatching
    the events [pre] from the start of a call made in heap [h0], and no
    handler has asked to stop. *)
Definition arrives (this : GraphQLToOpenAPIConverter) (schema : GraphQLSchema)
  (query : StringOrSource) (h0 : heap) (pre : list Event) (s : Visitor)
  (h : heap) : Prop :=
  visit (scalarConfig this) (onUnknownScalar this) schema
    (locationOffsetLine query) pre
    (initialVisitor (fst (build skeleton h0))) (snd (build skeleton h0))
  = Ok s h
  /\ error s = None.


(** The cache holds a usable node under [name]: what the test
    [scalarConfig[typeName]] of [getScalarType] sees. *)
Definition cached (h : heap) (scalarConfig : value) (name : string) : bool :=
  match get_prop h scalarConfig name with
  | Some x => truthy x
  | None => false
  end.

(** [v] refers to a cell of [h]. *)
Definition allocated (h : heap) (v : value) : Prop :=
  exists l o, v = VRef l /\ heap_lookup h l = Some o.


(** Between [h] and [h'] the entry at [p] was pushed onto
    [operationDef.get.parameters]. *)
Definition appended (h h' : heap) (s : Visitor) (p : loc) : Prop :=
  exists get_ params es ps,
    get_prop h (operationDef s) "get" = Some get_
    /\ get_prop h get_ "parameters" = Some (VRef params)
    /\ heap_lookup h params = Some (JSArray es ps)
    /\ heap_lookup h' params = Some (JSArray (es ++ [VRef p]) ps).

(** ** Schemas and documents of the scenarios *)

Module Scenario.

Definition builtinScalar (n : string) : option GraphQLType :=
  if existsb (String.eqb n) ["String"; "Int"; "Float"; "Boolean"; "ID"]
  then Some (GraphQLScalarType n) else None.

(** [type Query { hero: String }] *)
Definition heroSchema : GraphQLSchema :=
  {| getRootType := fun op =>
       match op with
       | query => Some (GraphQLObjectType "Query")
       | _ => None
       end;
     getType := fun n =>
       if String.eqb n "Query" then Some (GraphQLObjectType "Query")
       else builtinScalar n;
     getFields := fun n =>
       if String.eqb n "Query" then
         [ {| field_name := "hero"; field_type := GraphQLScalarType "String";
              field_description := VUndefined |} ]
       else [] |}.

Definition heroSchemaText : StringOrSource :=
  Text "type Query { hero: String }".

(** [query GetHero { hero }] *)
Definition getHeroText : StringOrSource := Text "query GetHero { hero }".

Definition getHero : DocumentNode :=
  [OperationDefinition 0 query (Some "GetHero") [] [Field 1 None "hero" []]].

(** [scalar DateTime
     input Filter { since: DateTime, tags: [String!] }
     type Droid { name: String }
     type Query { hero(id: ID, filter: Filter): String  name: String
                  droid: Droid  stamps: [DateTime!]  when: DateTime }] *)
Definition demoSchema : GraphQLSchema :=
  {| getRootType := fun op =>
       match op with
       | query => Some (GraphQLObjectType "Query")
       | _ => None
       end;
     getType := fun n =>
       if String.eqb n "Query" then Some (GraphQLObjectType "Query")
       else if String.eqb n "Droid" then Some (GraphQLObjectType "Droid")
       else if String.eqb n "DateTime"
       then Some (GraphQLScalarType "DateTime")
       else if String.eqb n "Filter"
       then Some (GraphQLInputObjectType "Filter" VUndefined)
       else builtinScalar n;
     getFields := fun n =>
       if String.eqb n "Query" then
         [ {| field_name := "hero"; field_type := GraphQLScalarType "String";
              field_description := VUndefined |};
           {| field_name := "name"; field_type := GraphQLScalarType "String";
              field_description := VUndefined |};
           {| field_name := "droid"; field_type := GraphQLObjectType "Droid";
              field_description := VUndefined |};
           {| field_name := "stamps";
              field_type :=
                GraphQLList (GraphQLNonNull (GraphQLScalarType "DateTime"));
              field_description := VUndefined |};
           {| field_name := "when"; field_type := GraphQLScalarType "DateTime";
              field_description := VUndefined |} ]
       else if String.eqb n "Droid" then
         [ {| field_name := "name"; field_type := GraphQLScalarType "String";
              field_description := VUndefined |} ]
       else if String.eqb n "Filter" then
         [ {| field_name := "since"; field_type := GraphQLScalarType "DateTime";
              field_description := VUndefined |};
           {| field_name := "tags";
              field_type :=
                GraphQLList (GraphQLNonNull (GraphQLScalarType "String"));
              field_description := VUndefined |} ]
       else [] |}.

Definition demoSchemaText : StringOrSource :=
  Text "scalar DateTime input Filter { since: DateTime, tags: [String!] } type Droid { name: String } type Query { hero(id: ID, filter: Filter): String name: String droid: Droid stamps: [DateTime!] when: DateTime }".

(** The field definitions of [hero: String] and [when: DateTime]. *)
Definition heroField : GraphQLField :=
  {| field_name := "hero"; field_type := GraphQLScalarType "String";
     field_description := VUndefined |}.


(** The field definition of [droid: Droid]. *)
Definition droidField : GraphQLField :=
  {| field_name := "droid"; field_type := GraphQLObjectType "Droid";
     field_description := VUndefined |}.

(** A resolver for [DateTime], declining every other name:
    [(s) => s === 'DateTime' ? {type: 'string', format: 'date-time'} : null] *)
Definition dateTimeResolver : Resolver :=
  fun name =>
    if String.eqb name "DateTime"
    then literal (Obj [("type", Str "string"); ("format", Str "date-time")])
    else ret VNull.

(** [query GetHero($id: ID!) { hero(id: $id) }]; arguments are not read by
    any handler. *)
Definition getHeroByIdText : StringOrSource :=
  Text "query GetHero($id: ID!) { hero(id: $id) }".

Definition getHeroById : DocumentNode :=
  [OperationDefinition 0 query (Some "GetHero")
     [ {| variable := "id"; variable_type := NonNullType (NamedType "ID") |} ]
     [Field 1 None "hero" []]].

(** [query Stamps { stamps }] *)
Definition stampsText : StringOrSource := Text "query Stamps { stamps }".

Definition stamps : DocumentNode :=
  [OperationDefinition 0 query (Some "Stamps") [] [Field 1 None "stamps" []]].

(** [query When { when }] *)
Definition whenText : StringOrSource := Text "query When { when }".

Definition when : DocumentNode :=
  [OperationDefinition 0 query (Some "When") [] [Field 1 None "when" []]].

(** [fragment F on Query { name } query Q { hero ...F }] *)
Definition spreadText : StringOrSource :=
  Text "fragment F on Query { name } query Q { hero ...F }".

Definition spread : DocumentNode :=
  [FragmentDefinition 0 "F" "Query" [Field 1 None "name" []];
   OperationDefinition 2 query (Some "Q") []
     [Field 3 None "hero" []; FragmentSpread 4 "F"]].

(** The same query with the selection set of [F] written in place of the
    spread: [query Q { hero name }] *)
Definition inlinedText : StringOrSource := Text "query Q { hero name }".

Definition inlined : DocumentNode :=
  [OperationDefinition 2 query (Some "Q") []
     [Field 3 None "hero" []; Field 1 None "name" []]].

(** [fragment F on Query { when } { ...F }] *)
Definition anonymousAfterFragmentText : StringOrSource :=
  Text "fragment F on Query { when } { ...F }".

Definition anonymousAfterFragment : DocumentNode :=
  [FragmentDefinition 0 "F" "Query" [Field 1 None "when" []];
   OperationDefinition 2 query None [] [FragmentSpread 3 "F"]].

(** [{ ...F } fragment F on Query { hero }] *)
Definition anonymousBeforeFragmentText : StringOrSource :=
  Text "{ ...F } fragment F on Query { hero }".

Definition anonymousBeforeFragment : DocumentNode :=
  [OperationDefinition 0 query None [] [FragmentSpread 1 "F"];
   FragmentDefinition 2 "F" "Query" [Field 3 None "hero" []]].

(** [query Q { ...F } fragment F on Query { hero }] *)
Definition spreadBeforeFragmentText : StringOrSource :=
  Text "query Q { ...F } fragment F on Query { hero }".

Definition spreadBeforeFragment : DocumentNode :=
  [OperationDefinition 0 query (Some "Q") [] [FragmentSpread 1 "F"];
   FragmentDefinition 2 "F" "Query" [Field 3 None "hero" []]].

(** [{ hero }] *)
Definition anonymousText : StringOrSource := Text "{ hero }".

Definition anonymous : DocumentNode :=
  [OperationDefinition 0 query None [] [Field 1 None "hero" []]].

(** [query Q($f: Filter!, $g: Filter)
       { hero(filter: $f) more: hero(filter: $g) }] *)
Definition filtersText : StringOrSource :=
  Text "query Q($f: Filter!, $g: Filter) { hero(filter: $f) more: hero(filter: $g) }".

Definition filters : DocumentNode :=
  [OperationDefinition 0 query (Some "Q")
     [ {| variable := "f"; variable_type := NonNullType (NamedType "Filter") |};
       {| variable := "g"; variable_type := NamedType "Filter" |} ]
     [Field 1 None "hero" []; Field 2 (Some "more") "hero" []]].

(** A GraphQL library that knows the texts above: what [buildSchema],
    [parse] and [validate] answer on them. *)
Definition same (a b : StringOrSource) : bool :=
  match a, b with
  | Text x, Text y => String.eqb x y
  | _, _ => false
  end.

Definition buildSchema (s : StringOrSource) : GraphQLError + GraphQLSchema :=
  if same s heroSchemaText then inr heroSchema
  else if same s demoSchemaText then inr demoSchema
  else inl "Syntax Error".

Definition buildClientSchema (i : unit) : GraphQLError + GraphQLSchema :=
  inl "Invalid or incomplete introspection result.".

Definition parse (q : StringOrSource) : GraphQLError + DocumentNode :=
  let table :=
    [ (getHeroText, getHero); (getHeroByIdText, getHeroById);
      (stampsText, stamps); (whenText, when); (spreadText, spread);
      (inlinedText, inlined);
      (anonymousAfterFragmentText, anonymousAfterFragment);
      (anonymousBeforeFragmentText, anonymousBeforeFragment);
      (spreadBeforeFragmentText, spreadBeforeFragment);
      (anonymousText, anonymous); (filtersText, filters) ] in
  match find (fun e => same q (fst e)) table with
  | Some e => inr (snd e)
  | None => inl "Syntax Error"
  end.

(** Every document above is valid against its schema. *)
Definition validate (schema : GraphQLSchema) (doc : DocumentNode)
  : list GraphQLError := [].

(** [new GraphQLToOpenAPIConverter(schema, undefined, onUnknownScalar)]
    followed by [toOpenAPI(q)] for each [q] of [queries], on a heap that
    holds nothing else; the result of the last call. *)
Fixpoint calls (this : GraphQLToOpenAPIConverter)
  (queries : list StringOrSource) (last : StringOrSource)
  : M GraphQLToOpenAPIResult :=
  match queries with
  | [] => toOpenAPI parse validate this last
  | q :: queries' =>
      toOpenAPI parse validate this q ;;; calls this queries' last
  end.

Definition session (schema : StringOrSource)
  (onUnknownScalar : option Resolver) (queries : list StringOrSource)
  (last : StringOrSource) : outcome GraphQLToOpenAPIResult :=
  (let* this :=
     constructor unit buildSchema buildClientSchema (Some schema) None
       onUnknownScalar None in
   calls this queries last) [].

(** The JSON at [path] of the returned [openApiSchema], if the call
    returned one. *)
Definition output (r : outcome GraphQLToOpenAPIResult) (path : list string)
  : option tree :=
  match r with
  | Ok res h =>
      match result_openApiSchema res with
      | Some v => at_path path (json h v)
      | None => None
      end
  | Throw _ _ => None
  end.

(** The engine that [new GraphQLToOpenAPIConverter(demoSchemaText,
    undefined, onUnknownScalar)] returns on an empty heap, and the heap it
    leaves: the cache [{}] is the only cell. *)
Definition converter (onUnknownScalar : Resolver)
  : GraphQLToOpenAPIConverter :=
  {| graphqlSchema := Some demoSchema; schemaError := None;
     onUnknownScalar := onUnknownScalar; scalarConfig := VRef 0 |}.

Definition freshHeap : heap := [JSObject []].

(** The visitor state and the heap once the walk has entered the
    operation [Q] of a document on [freshHeap]. *)
Definition enteredQ : Visitor * heap :=
  Eval vm_compute in
    match OperationDefinition_enter 1 0 (Some "Q")
            (initialVisitor (fst (build skeleton freshHeap)))
            (snd (build skeleton freshHeap)) with
    | Ok (s, _) h => (s, h)
    | Throw _ h => (initialVisitor VUndefined, h)
    end.


End Scenario.

(** ** Notions used by the further properties *)

(** The primitive that [typeMap] gives a built-in scalar: the [type] of
    the entries that have nothing but a [type]. *)
Definition builtinPrimitive (name : string) : option string :=
  match assoc name typeMap with
  | Some (Obj [(_, Leaf (VString primitive))]) => Some primitive
  | _ => None
  end.

(** [type] under [k] list wrappers. *)
Fixpoint nested (k : nat) (type : GraphQLType) : GraphQLType :=
  match k with
  | 0 => type
  | S k' => GraphQLList (nested k' type)
  end.

(** How many of the four fields of a result are set. *)
Definition fieldsSet (r : GraphQLToOpenAPIResult) : nat :=
  let set {A} (o : option A) := match o with Some _ => 1 | None => 0 end in
  set (result_queryErrors r) + set (result_error r)
  + set (result_schemaError r) + set (result_openApiSchema r).

(** The input object types named by [among] refer to one another in a
    cycle: each has a field whose type, under its list and non-null
    wrappers, is again one of them. *)
Definition inputCycle (schema : GraphQLSchema) (among : string -> Prop)
  : Prop :=
  forall n, among n ->
    exists f n' d',
      In f (getFields schema n)
      /\ TypeInfo.getNamedType (field_type f) = GraphQLInputObjectType n' d'
      /\ among n'.

(** The [loc] objects of a selection and of the selections below it. *)
Fixpoint locations (sel : SelectionNode) : list Location :=
  match sel with
  | Field loc _ _ selectionSet => loc :: flat_map locations selectionSet
  | FragmentSpread loc _ => [loc]
  | InlineFragment loc _ selectionSet => loc :: flat_map locations selectionSet
  end.

(** ** Schemas, documents and states of the further scenarios *)

Module Cases.

(** [input Node { children: [Node!] }
     type Query { hero(at: Node): String }] *)
Definition treeSchema : GraphQLSchema :=
  {| getRootType := fun op =>
       match op with
       | query => Some (GraphQLObjectType "Query")
       | _ => None
       end;
     getType := fun n =>
       if String.eqb n "Query" then Some (GraphQLObjectType "Query")
       else if String.eqb n "Node"
       then Some (GraphQLInputObjectType "Node" VUndefined)
       else Scenario.builtinScalar n;
     getFields := fun n =>
       if String.eqb n "Query" then
         [ {| field_name := "hero"; field_type := GraphQLScalarType "String";
              field_description := VUndefined |} ]
       else if String.eqb n "Node" then
         [ {| field_name := "children";
              field_type :=
                GraphQLList
                  (GraphQLNonNull (GraphQLInputObjectType "Node" VUndefined));
              field_description := VUndefined |} ]
       else [] |}.

(** A field [counts: [Int!]]. *)
Definition countsField : GraphQLField :=
  {| field_name := "counts";
     field_type := GraphQLList (GraphQLNonNull (GraphQLScalarType "Int"));
     field_description := VUndefined |}.

(** The selection set of [query Q { droid { name } hero }]. *)
Definition droidAndHero : list SelectionNode :=
  [Field 1 None "droid" [Field 2 None "name" []]; Field 3 None "hero" []].

(** The visitor state and the heap once the walk on [Scenario.freshHeap]
    has entered the operation [Q] and its field [droid]. *)
Definition insideDroid : Visitor * heap :=
  Eval vm_compute in
    match Field_enter (VRef 0) defaultOnUnknownScalar 1 None "droid"
            (Some Scenario.droidField) (fst Scenario.enteredQ)
            (snd Scenario.enteredQ) with
    | Ok (s, _) h => (s, h)
    | Throw _ h => (initialVisitor VUndefined, h)
    end.

(** The visitor state and the heap once the walk on [Scenario.freshHeap]
    has entered [fragment F on SearchResult], for a union
    [SearchResult]. *)
Definition insideUnion : Visitor * heap :=
  Eval vm_compute in
    match FragmentDefinition_enter 0 (Some (GraphQLUnionType "SearchResult"))
            (initialVisitor (fst (build skeleton Scenario.freshHeap)))
            (snd (build skeleton Scenario.freshHeap)) with
    | Ok (s, _) h => (s, h)
    | Throw _ h => (initialVisitor VUndefined, h)
    end.


End Cases.

(** * Reasoning about the heap and the monad *)

Lemma bind_Ok {A B} (m : M A) (k : A -> M B) h b h' :
  bind m k h = Ok b h' ->
  exists a h1, m h = Ok a h1 /\ k a h1 = Ok b h'.
Proof.
  unfold bind. destruct (m h) as [a h1|e h1]; [eauto | discriminate].
Qed.

Lemma bind_Throw {A B} (m : M A) (k : A -> M B) h e h' :
  m h = Throw e h' -> bind m k h = Throw e h'.
Proof. unfold bind. intros ->. reflexivity. Qed.

Lemma heap_lookup_lt h l o : heap_lookup h l = Some o -> l < length h.
Proof.
  induction h as [|c h IH]; simpl; [discriminate|].
  destruct (Nat.eqb_spec l (length h)); [lia|].
  intros H. apply IH in H. lia.
Qed.

Lemma heap_lookup_new h o : heap_lookup (o :: h) (length h) = Some o.
Proof. simpl. now rewrite Nat.eqb_refl. Qed.

Lemma heap_lookup_old h o l c :
  heap_lookup h l = Some c -> heap_lookup (o :: h) l = Some c.
Proof.
  intros H. simpl. destruct (Nat.eqb_spec l (length h)) as [->|]; [|exact H].
  apply heap_lookup_lt in H. lia.
Qed.

Lemma length_heap_update h l o : length (heap_update h l o) = length h.
Proof.
  induction h as [|c h IH]; simpl; [reflexivity|].
  destruct (Nat.eqb l (length h)); simpl; congruence.
Qed.

Lemma heap_lookup_update_same h l o c :
  heap_lookup h l = Some c -> heap_lookup (heap_update h l o) l = Some o.
Proof.
  induction h as [|c' h IH]; simpl; [discriminate|].
  destruct (Nat.eqb_spec l (length h)) as [->|Hne]; simpl.
  - now rewrite Nat.eqb_refl.
  - rewrite length_heap_update.
    destruct (Nat.eqb_spec l (length h)); [contradiction|]. exact IH.
Qed.

Lemma heap_lookup_update_other h l l' o :
  l' <> l -> heap_lookup (heap_update h l o) l' = heap_lookup h l'.
Proof.
  intros Hne. induction h as [|c h IH]; simpl; [reflexivity|].
  destruct (Nat.eqb_spec l (length h)) as [->|]; simpl.
  - destruct (Nat.eqb_spec l' (length h)); [contradiction | reflexivity].
  - rewrite length_heap_update.
    destruct (Nat.eqb l' (length h)); [reflexivity | exact IH].
Qed.



Ltac eqb_norm :=
  repeat match goal with
  | |- context [Nat.eqb ?a ?b] =>
      first [ rewrite (proj2 (Nat.eqb_eq a b)) by lia
            | rewrite (proj2 (Nat.eqb_neq a b)) by lia ]
  end.

Ltac inv_step :=
  match goal with
  | H : bind _ _ _ = Ok _ _ |- _ =>
      apply bind_Ok in H; destruct H as (? & ? & ? & H); cbv beta in H
  | H : ret _ _ = Ok _ _ |- _ => unfold ret in H; inversion H; subst; clear H
  | H : throw _ _ = Ok _ _ |- _ => discriminate H
  | H : inspect _ _ = Ok _ _ |- _ =>
      unfold inspect in H; inversion H; subst; clear H
  | H : (if ?c then _ else _) _ = Ok _ _ |- _ => destruct c eqn:?
  | H : (match ?x with _ => _ end) _ = Ok _ _ |- _ => destruct x eqn:?
  | H : (let (_, _) := ?x in _) _ = Ok _ _ |- _ => destruct x eqn:?
  | H : (let (_, _) := ?x in _) = Ok _ _ |- _ => destruct x eqn:?
  end.

Ltac inv_ok := repeat (once inv_step).

Ltac split_ifs :=
  repeat lazymatch goal with
         | |- context [if ?c then _ else _] => destruct c
         end.

(** The fuel of [recurseInputType]. *)
Lemma recurseInputType_unfold schema obj depth cfg r :
  recurseInputType schema obj depth cfg r
  = recurseInputTypeFuel (51 - depth) schema obj depth cfg r.
Proof. reflexivity. Qed.

(** Proofs below use the equation above instead of unfolding the fifty-one
    levels of fuel. *)
Opaque recurseInputType.

Section Walk.

Variable scalarConfig : value.
Variable onUnknownScalar : Resolver.
Variable schema : GraphQLSchema.
Variable line : nat.

Local Abbreviation handle := (handle scalarConfig onUnknownScalar schema line).
Local Abbreviation visit := (visit scalarConfig onUnknownScalar schema line).

Lemma shift_error s v s' h h' :
  shift s h = Ok (v, s') h' -> error s' = error s /\ fragments s' = fragments s.
Proof.
  unfold shift. destruct (currentSelection s); intros H; inv_ok. auto.
Qed.

(** Only the enter handler of an operation touches [error], and it asks
    to stop exactly when it records one. *)
Lemma handle_error ev s h s' signal h' :
  handle ev s h = Ok (s', signal) h' ->
  match signal with
  | Continue => error s' = error s
  | BREAK => error s' <> None
  end.
Proof.
  destruct ev; cbn [handle]; intros H.
  - unfold FragmentDefinition_enter in H. inv_ok; reflexivity.
  - unfold FragmentDefinition_leave in H. inv_ok.
    match goal with H : shift _ _ = _ |- _ => apply shift_error in H as [E _] end.
    exact E.
  - unfold OperationDefinition_enter in H. inv_ok; cbn; congruence.
  - inv_ok. reflexivity.
  - unfold VariableDefinition in H. inv_ok; reflexivity.
  - unfold FragmentSpread_enter in H. inv_ok; reflexivity.
  - unfold Field_enter in H. inv_ok.
    all: split_ifs; reflexivity.
  - unfold Field_leave in H. inv_ok; try reflexivity.
    match goal with H : shift _ _ = _ |- _ => apply shift_error in H as [E _] end.
    exact E.
  - unfold InlineFragment_enter in H. inv_ok; reflexivity.
  - unfold InlineFragment_leave in H. inv_ok.
    match goal with H : shift _ _ = _ |- _ => apply shift_error in H as [E _] end.
    exact E.
  - inv_ok. reflexivity.
Qed.



Lemma visit_cons ev rest s h :
  visit (ev :: rest) s h =
  match handle ev s h with
  | Ok (s', BREAK) h' => Ok s' h'
  | Ok (s', Continue) h' => visit rest s' h'
  | Throw e h' => Throw e h'
  end.
Proof.
  cbn [visit]. unfold bind.
  destruct (handle ev s h) as [[s' []] h'|e h']; reflexivity.
Qed.

(** A walk that has not been stopped goes on with the remaining events. *)
Lemma visit_app pre post s h s1 h1 :
  error s = None ->
  visit pre s h = Ok s1 h1 ->
  error s1 = None ->
  visit (pre ++ post) s h = visit post s1 h1.
Proof.
  revert s h. induction pre as [|ev pre IH]; intros s h Hs Hv Hs1.
  - cbn in Hv. unfold ret in Hv. inversion Hv; subst. reflexivity.
  - rewrite <- app_comm_cons. rewrite visit_cons in *.
    destruct (handle ev s h) as [[s' signal] h'|e h'] eqn:Hh; [|discriminate].
    apply handle_error in Hh. destruct signal.
    + apply IH; congruence.
    + inversion Hv; subst. contradiction.
Qed.



End Walk.

Section Calls.

Variable IntrospectionQuery : Type.
Variable parse : StringOrSource -> GraphQLError + DocumentNode.
Variable validate : GraphQLSchema -> DocumentNode -> list GraphQLError.

(** What [toOpenAPI] does once the schema, the parser and the validator
    have let the query through: it walks the document. *)
Lemma toOpenAPI_walk this query doc schema h0 :
  schemaError this = None ->
  graphqlSchema this = Some schema ->
  parse query = inr doc ->
  validate schema doc = [] ->
  toOpenAPI parse validate this query h0 =
  match visit (scalarConfig this) (onUnknownScalar this) schema
          (locationOffsetLine query) (TypeInfo.documentEvents schema doc)
          (initialVisitor (fst (build skeleton h0)))
          (snd (build skeleton h0)) with
  | Ok s h =>
      Ok (match error s with
          | Some e => {| result_queryErrors := None; result_error := Some e;
                         result_schemaError := None;
                         result_openApiSchema := None |}
          | None => {| result_queryErrors := None; result_error := None;
                       result_schemaError := None;
                       result_openApiSchema :=
                         Some (fst (build skeleton h0)) |}
          end) h
  | Throw e h => Throw e h
  end.
Proof.
  intros Herr Hschema Hparse Hvalid. unfold toOpenAPI.
  rewrite Herr, Hparse, Hschema, Hvalid.
  unfold bind at 1. unfold literal.
  destruct (build skeleton h0) as [v h1]. cbn [fst snd].
  unfold bind.
  destruct (visit _ _ _ _ _ _ h1) as [s h|e h]; [|reflexivity].
  destruct (error s); reflexivity.
Qed.


End Calls.

(** * The scalar resolver *)






Lemma reduce_ext {A B} (f g : B -> A -> M B) xs :
  (forall acc x h, f acc x h = g acc x h) ->
  forall init h, reduce f xs init h = reduce g xs init h.
Proof.
  intros E. induction xs as [|x xs IH]; intros init h; cbn [reduce];
    [reflexivity|].
  unfold bind. rewrite E. destruct (g init x h); [apply IH | reflexivity].
Qed.

Lemma bind_ext {A B} (m1 m2 : M A) (k1 k2 : A -> M B) h :
  m1 h = m2 h ->
  (forall a h', k1 a h' = k2 a h') ->
  bind m1 k1 h = bind m2 k2 h.
Proof.
  intros Hm Hk. unfold bind. rewrite Hm.
  destruct (m2 h); [apply Hk | reflexivity].
Qed.

Lemma recurseInputTypeFuel_congr n m schema obj depth cfg r h :
  (forall t h, recurseInputTypeFuel n schema (Some t) (depth + 1) cfg r h
               = recurseInputTypeFuel m schema (Some t) (depth + 1) cfg r h) ->
  recurseInputTypeFuel (S n) schema obj depth cfg r h
  = recurseInputTypeFuel (S m) schema obj depth cfg r h.
Proof.
  intros IH. cbn [recurseInputTypeFuel].
  destruct (Nat.ltb 50 depth); [reflexivity|].
  destruct obj as [[| | | | |name d|t|t]|]; try reflexivity.
  - apply bind_ext; [reflexivity | intros init h1].
    apply bind_ext; [|reflexivity].
    apply reduce_ext. intros acc x h2.
    apply bind_ext; [apply IH | reflexivity].
  - apply bind_ext; [reflexivity | intros a h1].
    apply bind_ext; [apply IH | reflexivity].
  - apply bind_ext; [apply IH | reflexivity].
Qed.

(** Past the depth guard the fuel is never what stops the recursion:
    started at [51 - depth], one more unit of fuel changes nothing. *)
Lemma recurseInputTypeFuel_enough fuel :
  forall schema obj depth cfg r h,
    51 <= fuel + depth ->
    recurseInputTypeFuel (S fuel) schema obj depth cfg r h
    = recurseInputTypeFuel fuel schema obj depth cfg r h.
Proof.
  induction fuel as [|fuel IH]; intros schema obj depth cfg r h Hle.
  - cbn [recurseInputTypeFuel].
    destruct (Nat.ltb_spec 50 depth); [reflexivity | lia].
  - apply recurseInputTypeFuel_congr. intros t h0. apply IH. lia.
Qed.

(** Any fuel from [51 - depth] upwards gives what [recurseInputType]
    gives. *)
Lemma recurseInputType_fuel_irrelevant k schema obj depth cfg r h :
  recurseInputTypeFuel (51 - depth + k) schema obj depth cfg r h
  = recurseInputType schema obj depth cfg r h.
Proof.
  rewrite recurseInputType_unfold.
  induction k as [|k IH]; [rewrite Nat.add_0_r; reflexivity|].
  rewrite Nat.add_succ_r, recurseInputTypeFuel_enough by lia. exact IH.
Qed.

Lemma get_Ok v k h x h' :
  get v k h = Ok x h' -> h' = h /\ get_prop h v k = Some x.
Proof.
  unfold get. destruct (get_prop h v k); intros H; inversion H; auto.
Qed.

Lemma push_Ok v x h u h' :
  push v x h = Ok u h' ->
  exists l es ps,
    v = VRef l /\ heap_lookup h l = Some (JSArray es ps)
    /\ h' = heap_update h l (JSArray (es ++ [x]) ps).
Proof.
  unfold push. destruct v; try discriminate.
  destruct (heap_lookup h l) as [[|es ps]|] eqn:E; try discriminate.
  intros H. inversion H. exists l, es, ps. auto.
Qed.


Lemma assoc_In {A} k (v : A) ps : assoc k ps = Some v -> In v (map snd ps).
Proof.
  induction ps as [|[k' v'] ps IH]; simpl; [discriminate|].
  destruct (String.eqb k k'); [intros H; inversion H; auto | auto].
Qed.

Local Arguments Nat.eqb : simpl never.
Local Arguments String.eqb : simpl nomatch.

Ltac heap_eval := repeat (cbn; eqb_norm).

Lemma new_object_Ok ps h v h' :
  new_object ps h = Ok v h' -> v = VRef (length h) /\ h' = JSObject ps :: h.
Proof. unfold new_object, alloc. intros H. inversion H. auto. Qed.

Lemma inspect_Ok {A} (f : heap -> A) h a h' :
  inspect f h = Ok a h' -> h' = h /\ a = f h.
Proof. unfold inspect. intros H. inversion H. auto. Qed.

(** The entry that the handler of a variable definition appends. *)
Lemma VariableDefinition_appends cfg r schema variable inputType s h s'
  signal h' :
  VariableDefinition cfg r schema variable inputType s h = Ok (s', signal) h' ->
  exists t h1 type description get_ params es ps p sch,
    recurseInputType schema inputType 0 cfg r h = Ok t h1
    /\ get_prop h1 t "type" = Some type
    /\ get_prop h1 t "description" = Some description
    /\ get_prop h1 (operationDef s) "get" = Some get_
    /\ get_prop h1 get_ "parameters" = Some (VRef params)
    /\ heap_lookup h1 params = Some (JSArray es ps)
    /\ heap_lookup h' params = Some (JSArray (es ++ [VRef p]) ps)
    /\ heap_lookup h' p
       = Some (JSObject
                 [("name", VString variable); ("in", VString "query");
                  ("required",
                   VBool (negb (isOfTypeOrContains h1 type "null")));
                  ("schema", VRef sch);
                  ("description", or_undefined description)])
    /\ get_prop h' (VRef sch) "type" = Some type
    /\ s' = s /\ signal = Continue.
Proof.
  intros H. unfold VariableDefinition in H.
  apply bind_Ok in H as (t & h1 & Hrec & H).
  apply bind_Ok in H as (type & ? & Htype & H).
  apply get_Ok in Htype as [-> Htype].
  apply bind_Ok in H as (is_container & ? & Hc & H).
  apply inspect_Ok in Hc as [-> ->].
  apply bind_Ok in H as (get_ & ? & Hg & H).
  apply get_Ok in Hg as [-> Hg].
  apply bind_Ok in H as (parameters & ? & Hp & H).
  apply get_Ok in Hp as [-> Hp].
  apply bind_Ok in H as (admits_null & ? & Hn & H).
  apply inspect_Ok in Hn as [-> ->].
  apply bind_Ok in H as (description & ? & Hd & H).
  apply get_Ok in Hd as [-> Hd].
  apply bind_Ok in H as (schema_ & h2 & Hs & H).
  apply bind_Ok in H as (parameter & h3 & Hpar & H).
  apply new_object_Ok in Hpar as [-> ->].
  apply bind_Ok in H as (u & h4 & Hpush & H).
  unfold ret in H. injection H as <- <- <-.
  apply push_Ok in Hpush as (l & es & ps & -> & Hl & ->).
  assert (Hsch : exists sps, schema_ = VRef (length h1)
                             /\ h2 = JSObject sps :: h1
                             /\ assoc "type" sps = Some type).
  { destruct (isOfTypeOrContains h1 type "object"
              || isOfTypeOrContains h1 type "array").
    - apply bind_Ok in Hs as (items & ? & Hi & Hs).
      apply get_Ok in Hi as [-> Hi].
      apply bind_Ok in Hs as (properties & ? & Hpr & Hs).
      apply get_Ok in Hpr as [-> Hpr].
      apply new_object_Ok in Hs as [-> ->]. eexists. repeat split.
    - apply new_object_Ok in Hs as [-> ->]. eexists. repeat split. }
  destruct Hsch as (sps & -> & -> & Hty).
  assert (Hlt : l < length h1).
  { cbn [heap_lookup length] in Hl.
    destruct (Nat.eqb l (S (length h1))); [discriminate|].
    destruct (Nat.eqb l (length h1)); [discriminate|].
    eapply heap_lookup_lt. exact Hl. }
  assert (Hl1 : heap_lookup h1 l = Some (JSArray es ps)).
  { cbn [heap_lookup length] in Hl.
    destruct (Nat.eqb l (S (length h1))); [discriminate|].
    destruct (Nat.eqb l (length h1)); [discriminate|]. exact Hl. }
  exists t, h1, type, description, get_, l, es, ps, (S (length h1)),
    (length h1).
  repeat split; try assumption.
  - apply (heap_lookup_update_same _ _ _ _ Hl).
  - rewrite heap_lookup_update_other by (cbn [length]; lia).
    apply (heap_lookup_new (JSObject sps :: h1)).
  - unfold get_prop. rewrite heap_lookup_update_other by lia.
    rewrite (heap_lookup_old _ _ _ _ (heap_lookup_new h1 (JSObject sps))).
    cbn [own]. rewrite Hty. reflexivity.
Qed.

Lemma new_array_Ok es h v h' :
  new_array es h = Ok v h' -> v = VRef (length h) /\ h' = JSArray es [] :: h.
Proof. unfold new_array, alloc. intros H. inversion H. auto. Qed.

(** The node that the input type mapper returns for an input object. *)
Lemma recurseInputTypeFuel_inputObject fuel schema name description depth cfg
  r h t h1 :
  recurseInputTypeFuel fuel schema
    (Some (GraphQLInputObjectType name description)) depth cfg r h = Ok t h1 ->
  exists h0 properties,
    t = VRef (S (length h0))
    /\ h1 = JSObject [("type", VRef (length h0));
                      ("description", or_undefined description);
                      ("properties", properties)]
            :: JSArray [VString "object"; VString "null"] [] :: h0.
Proof.
  intros H. destruct fuel; cbn [recurseInputTypeFuel] in H;
    destruct (Nat.ltb 50 depth); try discriminate H.
  apply bind_Ok in H as (init & h2 & _ & H).
  apply bind_Ok in H as (properties & h0 & _ & H).
  apply bind_Ok in H as (type & h3 & Ha & H).
  apply new_array_Ok in Ha as [-> ->].
  apply new_object_Ok in H as [-> ->].
  exists h0, properties. split; reflexivity.
Qed.

Lemma recurseInputType_inputObject schema name description cfg r h t h1 :
  recurseInputType schema (Some (GraphQLInputObjectType name description)) 0
    cfg r h = Ok t h1 ->
  exists type,
    get_prop h1 t "type" = Some type
    /\ isArray h1 type = true
    /\ elements h1 type = [VString "object"; VString "null"]
    /\ isOfTypeOrContains h1 type "null" = true.
Proof.
  rewrite recurseInputType_unfold. intros H.
  apply recurseInputTypeFuel_inputObject in H as (h0 & props & -> & ->).
  exists (VRef (length h0)). unfold isOfTypeOrContains.
  repeat split; heap_eval; reflexivity.
Qed.

Lemma recurseInputTypeFuel_nonNull_inputObject fuel schema name description
  depth cfg r h t h1 :
  recurseInputTypeFuel fuel schema
    (Some (GraphQLNonNull (GraphQLInputObjectType name description))) depth
    cfg r h = Ok t h1 ->
  get_prop h1 t "type" = Some (VString "object").
Proof.
  intros H. destruct fuel; cbn [recurseInputTypeFuel] in H;
    destruct (Nat.ltb 50 depth); try discriminate H.
  apply bind_Ok in H as (inner & h2 & Hin & H).
  apply recurseInputTypeFuel_inputObject in Hin as (h0 & props & -> & ->).
  revert H.
  unfold bind, spread, inspect, new_object, new_array, alloc, get, set, ret.
  heap_eval. intros H. injection H as <- <-. heap_eval. reflexivity.
Qed.

Lemma recurseInputType_nonNull_inputObject schema name description cfg r h t
  h1 :
  recurseInputType schema
    (Some (GraphQLNonNull (GraphQLInputObjectType name description))) 0
    cfg r h = Ok t h1 ->
  get_prop h1 t "type" = Some (VString "object").
Proof.
  rewrite recurseInputType_unfold.
  apply recurseInputTypeFuel_nonNull_inputObject.
Qed.

(** * The claims *)

Section Claims.

Variable IntrospectionQuery : Type.
Variable buildSchema : StringOrSource -> GraphQLError + GraphQLSchema.
Variable buildClientSchema : IntrospectionQuery -> GraphQLError + GraphQLSchema.
Variable parse : StringOrSource -> GraphQLError + DocumentNode.
Variable validate : GraphQLSchema -> DocumentNode -> list GraphQLError.

(** C1 (Scenario A).  With a GraphQL library that builds
    [type Query { hero: String }] into [heroSchema], parses
    [query GetHero { hero }] into [getHero] and finds it valid, a fresh
    engine's [toOpenAPI] returns the success variant, and the JSON of
    [paths["/GetHero"].get.responses["200"].content["application/json"].schema]
    is [{type: "object", properties: {hero: {type: ["string", "null"]}}}]. *)
Theorem scenario_A_hero_response :
  buildSchema Scenario.heroSchemaText = inr Scenario.heroSchema ->
  parse Scenario.getHeroText = inr Scenario.getHero ->
  validate Scenario.heroSchema Scenario.getHero = [] ->
  exists this h r h' doc,
    constructor IntrospectionQuery buildSchema buildClientSchema
      (Some Scenario.heroSchemaText) None None None [] = Ok this h
    /\ toOpenAPI parse validate this Scenario.getHeroText h = Ok r h'
    /\ result_queryErrors r = None
    /\ result_error r = None
    /\ result_schemaError r = None
    /\ result_openApiSchema r = Some doc
    /\ at_path (responseSchema "/GetHero") (json h' doc)
       = Some (Obj [("type", Str "object");
                    ("properties",
                     Obj [("hero",
                           Obj [("type",
                                 Arr [Str "string"; Str "null"])])])]).
Proof.
  intros Hbuild Hparse Hvalid.
  unfold constructor, toOpenAPI.
  cbn [Scenario.heroSchemaText].
  unfold bind at 1. cbn [new_object alloc].
  rewrite Hbuild.
  do 5 eexists. split; [reflexivity|].
  cbn [schemaError graphqlSchema]. rewrite Hparse, Hvalid.
  split; [vm_compute; reflexivity|].
  repeat (split; [reflexivity|]). vm_compute. reflexivity.
Qed.

(** C2, as amended.  For a field whose declared type, written without its
    final bang, is a key of [typeMap] (a built-in scalar or a list of one),
    and for a field of enum type, the node returned by
    [fieldDefToOpenApiField] admits "null" in its [type] exactly when the
    declared type is not wrapped in non-null. *)
Theorem builtin_and_enum_nullability :
  forall fd cfg r h,
    (assoc (removeFinalBang (toString (field_type fd))) typeMap <> None
     \/ exists n vs d, unwrapNonNull (field_type fd) = GraphQLEnumType n vs d) ->
    exists node h' t,
      fieldDefToOpenApiField (Some fd) cfg r h = Ok node h'
      /\ get_prop h' node "type" = Some t
      /\ isOfTypeOrContains h' t "null" = negb (isNonNull (field_type fd)).
Proof.
  intros fd cfg r h Hkind. unfold fieldDefToOpenApiField.
  unfold bind at 1. unfold new_object at 1, alloc.
  destruct (assoc (removeFinalBang (toString (field_type fd))) typeMap)
    as [entry|] eqn:Hmap.
  - clear Hkind. apply assoc_In in Hmap. cbn in Hmap.
    destruct (isNonNull (field_type fd)); cbn [negb];
      repeat (destruct Hmap as [<-|Hmap]; [unfold bind, literal, spread, new_object, new_array, alloc, get, set, ret; heap_eval; do 3 eexists; (split; [reflexivity | split; [heap_eval; reflexivity | heap_eval; reflexivity]])|]);
      contradiction.
  - destruct Hkind as [Hk | (n & vs & d & Hk)]; [contradiction|].
    rewrite Hk.
    destruct (isNonNull (field_type fd)); cbn [negb];
      unfold bind, literal, spread, new_object, new_array, alloc, get, set, ret;
      heap_eval; do 3 eexists; (split; [reflexivity | split; [heap_eval; reflexivity | heap_eval; reflexivity]]).
Qed.

(** C3, as amended.  When the schema was built, the query parses and is
    valid, and the walk arrives at an operation without a name (no handler
    of an earlier definition threw), [toOpenAPI] returns the variant
    [{ error }] whose message carries [locationOffset.line] of the query's
    source; no [openApiSchema] is returned, and the heap is the one of the
    arrival plus the handler's own literal: nothing after the operation
    is visited. *)
Theorem anonymous_operation_stops_walk :
  forall this query doc schema h0 before loc operation variableDefinitions
         selectionSet after s h,
    schemaError this = None ->
    graphqlSchema this = Some schema ->
    parse query = inr doc ->
    validate schema doc = [] ->
    doc = before
          ++ OperationDefinition loc operation None variableDefinitions
               selectionSet :: after ->
    arrives this schema query h0
      (flat_map (TypeInfo.definitionEvents schema) before) s h ->
    toOpenAPI parse validate this query h0
    = Ok {| result_queryErrors := None;
            result_error :=
              Some {| message :=
                        "GraphQLToOpenAPIConverter requires a named operation on line "
                        ++ string_of_nat (locationOffsetLine query)
                        ++ " of input query" |};
            result_schemaError := None;
            result_openApiSchema := None |}
         (snd (build (Obj [("type", Str "object"); ("properties", Obj [])])
                 h)).
Proof.
  intros this query doc schema h0 before loc operation vars sels after s h
    Herr Hschema Hparse Hvalid Hdoc [Hpre Hnone].
  rewrite (toOpenAPI_walk parse validate this query doc schema h0)
    by assumption.
  subst doc.
  unfold TypeInfo.documentEvents. rewrite flat_map_app.
  cbn [flat_map TypeInfo.definitionEvents]. rewrite <- !app_assoc.
  rewrite <- !app_comm_cons.
  rewrite (visit_app _ _ _ _ _ _ _ _ s h) by (try assumption; reflexivity).
  rewrite visit_cons. cbn [handle]. unfold OperationDefinition_enter.
  unfold bind, literal, ret. cbn [build]. cbn [error with_error].
  reflexivity.
Qed.

(** C4.  A variable whose input type is a non-null input object gets a
    parameter entry with [required: true] and [schema.type] the string
    "object"; for a nullable input object [schema.type] is the array that
    [recurseInputType] returned as [type], whose elements are "object" and
    "null", and the entry has [required: false]. *)
Theorem input_object_variable_type :
  forall cfg r schema variable name description s h s' signal h',
    (VariableDefinition cfg r schema variable
       (Some (GraphQLNonNull (GraphQLInputObjectType name description))) s h
     = Ok (s', signal) h' ->
     exists t h1 p sch,
       recurseInputType schema
         (Some (GraphQLNonNull (GraphQLInputObjectType name description))) 0
         cfg r h = Ok t h1
       /\ appended h1 h' s p
       /\ get_prop h' (VRef p) "required" = Some (VBool true)
       /\ get_prop h' (VRef p) "schema" = Some sch
       /\ get_prop h' sch "type" = Some (VString "object"))
    /\ (VariableDefinition cfg r schema variable
          (Some (GraphQLInputObjectType name description)) s h
        = Ok (s', signal) h' ->
        exists t h1 p sch type,
          recurseInputType schema
            (Some (GraphQLInputObjectType name description)) 0 cfg r h
          = Ok t h1
          /\ appended h1 h' s p
          /\ get_prop h' (VRef p) "required" = Some (VBool false)
          /\ get_prop h' (VRef p) "schema" = Some sch
          /\ get_prop h' sch "type" = Some type
          /\ get_prop h1 t "type" = Some type
          /\ isArray h1 type = true
          /\ elements h1 type = [VString "object"; VString "null"]).
Proof.
  intros cfg r schema variable name description s h s' signal h'. split.
  - intros H. apply VariableDefinition_appends in H
      as (t & h1 & type & d & get_ & params & es & ps & p & sch & Hrec & Hty
          & _ & Hg & Hp & Hl & Hl' & Hentry & Hsch & _).
    pose proof (recurseInputType_nonNull_inputObject _ _ _ _ _ _ _ _ Hrec)
      as Hobj.
    rewrite Hobj in Hty. injection Hty as <-.
    exists t, h1, p, (VRef sch). split; [exact Hrec|].
    split; [exists get_, params, es, ps; auto|].
    unfold get_prop at 1 2. rewrite Hentry. cbn [own assoc String.eqb].
    repeat split; try reflexivity. exact Hsch.
  - intros H. apply VariableDefinition_appends in H
      as (t & h1 & type & d & get_ & params & es & ps & p & sch & Hrec & Hty
          & _ & Hg & Hp & Hl & Hl' & Hentry & Hsch & _).
    destruct (recurseInputType_inputObject _ _ _ _ _ _ _ _ Hrec)
      as (type' & Hty' & Harr & Hel & Hnull).
    rewrite Hty in Hty'. injection Hty' as <-.
    exists t, h1, p, (VRef sch), type. split; [exact Hrec|].
    split; [exists get_, params, es, ps; auto|].
    unfold get_prop at 1 2. rewrite Hentry, Hnull. cbn [own assoc String.eqb].
    repeat split; try reflexivity; assumption.
Qed.





End Claims.

(** ** Instances of the claims on the scenarios *)

Example constructor_fresh :
  constructor unit Scenario.buildSchema Scenario.buildClientSchema
    (Some Scenario.demoSchemaText) None None None []
  = Ok (Scenario.converter defaultOnUnknownScalar) Scenario.freshHeap.
Proof. reflexivity. Qed.

Lemma scenario_A_hero_response_witness :
  exists this h r h' doc,
    constructor unit Scenario.buildSchema Scenario.buildClientSchema
      (Some Scenario.heroSchemaText) None None None [] = Ok this h
    /\ toOpenAPI Scenario.parse Scenario.validate this Scenario.getHeroText h
       = Ok r h'
    /\ result_queryErrors r = None
    /\ result_error r = None
    /\ result_schemaError r = None
    /\ result_openApiSchema r = Some doc
    /\ at_path (responseSchema "/GetHero") (json h' doc)
       = Some (Obj [("type", Str "object");
                    ("properties",
                     Obj [("hero",
                           Obj [("type",
                                 Arr [Str "string"; Str "null"])])])]).
Proof.
  apply (scenario_A_hero_response unit Scenario.buildSchema
           Scenario.buildClientSchema Scenario.parse Scenario.validate);
    reflexivity.
Defined.

(** Against C2 as stated: the field [droid: Droid] is not wrapped in
    non-null, and the [type] of its node is the bare string "object". *)
Lemma object_field_lacks_null :
  exists node h' t,
    fieldDefToOpenApiField (Some Scenario.droidField) (VRef 0)
      defaultOnUnknownScalar Scenario.freshHeap = Ok node h'
    /\ get_prop h' node "type" = Some t
    /\ t = VString "object"
    /\ isNonNull (field_type Scenario.droidField) = false
    /\ isOfTypeOrContains h' t "null" = false.
Proof.
  do 3 eexists. split; [vm_compute; reflexivity|].
  split; [vm_compute; reflexivity|]. repeat split.
Qed.

Lemma builtin_and_enum_nullability_witness :
  exists node h' t,
    fieldDefToOpenApiField (Some Scenario.heroField) (VRef 0)
      defaultOnUnknownScalar Scenario.freshHeap = Ok node h'
    /\ get_prop h' node "type" = Some t
    /\ isOfTypeOrContains h' t "null"
       = negb (isNonNull (field_type Scenario.heroField)).
Proof.
  apply (builtin_and_enum_nullability Scenario.heroField (VRef 0)
           defaultOnUnknownScalar Scenario.freshHeap).
  left. vm_compute. discriminate.
Defined.

(** Against C3 as stated: [fragment F on Query { when } { ...F }] is valid
    and contains an operation with no name, and the call throws before the
    walk reaches that operation. *)
Lemma anonymous_operation_after_failing_fragment :
  Scenario.parse Scenario.anonymousAfterFragmentText
  = inr Scenario.anonymousAfterFragment
  /\ In (OperationDefinition 2 query None [] [FragmentSpread 3 "F"])
       Scenario.anonymousAfterFragment
  /\ exists h,
       Scenario.session Scenario.demoSchemaText None []
         Scenario.anonymousAfterFragmentText
       = Throw (UnknownScalarError "Unknown scalar: DateTime") h.
Proof.
  split; [reflexivity|]. split; [right; left; reflexivity|].
  eexists. vm_compute. reflexivity.
Qed.

Lemma anonymous_operation_stops_walk_witness :
  toOpenAPI Scenario.parse Scenario.validate
    (Scenario.converter defaultOnUnknownScalar) Scenario.anonymousText
    Scenario.freshHeap
  = Ok {| result_queryErrors := None;
          result_error :=
            Some {| message :=
                      "GraphQLToOpenAPIConverter requires a named operation on line "
                      ++ string_of_nat
                           (locationOffsetLine Scenario.anonymousText)
                      ++ " of input query" |};
          result_schemaError := None;
          result_openApiSchema := None |}
       (snd (build (Obj [("type", Str "object"); ("properties", Obj [])])
               (snd (build skeleton Scenario.freshHeap)))).
Proof.
  apply (anonymous_operation_stops_walk Scenario.parse Scenario.validate
           (Scenario.converter defaultOnUnknownScalar) Scenario.anonymousText
           Scenario.anonymous Scenario.demoSchema Scenario.freshHeap
           [] 0 query [] [Field 1 None "hero" []] []
           (initialVisitor (fst (build skeleton Scenario.freshHeap))));
    try reflexivity.
  split; reflexivity.
Defined.

Lemma input_object_variable_type_witness :
  exists s' signal h',
    VariableDefinition (VRef 0) Scenario.dateTimeResolver Scenario.demoSchema
      "f" (Some (GraphQLNonNull (GraphQLInputObjectType "Filter" VUndefined)))
      (fst Scenario.enteredQ) (snd Scenario.enteredQ) = Ok (s', signal) h'
    /\ exists t h1 p sch,
         recurseInputType Scenario.demoSchema
           (Some (GraphQLNonNull (GraphQLInputObjectType "Filter" VUndefined)))
           0 (VRef 0) Scenario.dateTimeResolver (snd Scenario.enteredQ)
         = Ok t h1
         /\ appended h1 h' (fst Scenario.enteredQ) p
         /\ get_prop h' (VRef p) "required" = Some (VBool true)
         /\ get_prop h' (VRef p) "schema" = Some sch
         /\ get_prop h' sch "type" = Some (VString "object").
Proof.
  do 3 eexists. split; [vm_compute; reflexivity|].
  eapply (proj1 (input_object_variable_type (VRef 0) Scenario.dateTimeResolver
                  Scenario.demoSchema "f" "Filter" VUndefined
                  (fst Scenario.enteredQ) (snd Scenario.enteredQ) _ _ _)).
  vm_compute. reflexivity.
Defined.

(** The parameters of
    [query Q($f: Filter!, $g: Filter)
       { hero(filter: $f) more: hero(filter: $g) }]. *)
Example filters_parameters :
  Scenario.output
    (Scenario.session Scenario.demoSchemaText (Some Scenario.dateTimeResolver)
       [] Scenario.filtersText)
    (parameters "/Q")
  = Some
      (Arr
         [Obj [("name", Str "f"); ("in", Str "query");
               ("required", Leaf (VBool true));
               ("schema",
                Obj [("type", Str "object");
                     ("properties",
                      Obj [("since",
                            Obj [("type", Str "string");
                                 ("format", Str "date-time")]);
                           ("tags",
                            Obj [("type", Arr [Str "array"; Str "null"]);
                                 ("items",
                                  Obj [("type", Str "string")])])])])];
          Obj [("name", Str "g"); ("in", Str "query");
               ("required", Leaf (VBool false));
               ("schema",
                Obj [("type", Arr [Str "object"; Str "null"]);
                     ("properties",
                      Obj [("since",
                            Obj [("type", Str "string");
                                 ("format", Str "date-time")]);
                           ("tags",
                            Obj [("type", Arr [Str "array"; Str "null"]);
                                 ("items",
                                  Obj [("type", Str "string")])])])])]]).
Proof. vm_compute. reflexivity. Qed.



(** C7 at the failing input.  [stamps: [DateTime!]] has non-null items,
    and the [items] of its node still get the "null" alternative. *)
Theorem non_null_list_items_marked_nullable :
  find (fun f => String.eqb (field_name f) "stamps")
    (getFields Scenario.demoSchema "Query")
  = Some {| field_name := "stamps";
            field_type :=
              GraphQLList (GraphQLNonNull (GraphQLScalarType "DateTime"));
            field_description := VUndefined |}
  /\ Scenario.output
       (Scenario.session Scenario.demoSchemaText
          (Some Scenario.dateTimeResolver) [] Scenario.stampsText)
       (responseSchema "/Stamps" ++ ["properties"; "stamps"])
     = Some (Obj [("items",
                   Obj [("type", Arr [Str "string"; Str "null"]);
                        ("format", Str "date-time")]);
                  ("type", Str "array")]).
Proof. split; [reflexivity | vm_compute; reflexivity]. Qed.



(** C9 at the failing input.  The same query, twice on one engine: the
    cached node of [DateTime] is wrapped once more by each call. *)
Theorem second_call_differs :
  Scenario.output
    (Scenario.session Scenario.demoSchemaText
       (Some Scenario.dateTimeResolver) [] Scenario.stampsText)
    (responseSchema "/Stamps" ++ ["properties"; "stamps"; "items"; "type"])
  = Some (Arr [Str "string"; Str "null"])
  /\ Scenario.output
       (Scenario.session Scenario.demoSchemaText
          (Some Scenario.dateTimeResolver) [Scenario.stampsText]
          Scenario.stampsText)
       (responseSchema "/Stamps" ++ ["properties"; "stamps"; "items"; "type"])
     = Some (Arr [Arr [Str "string"; Str "null"]; Str "null"]).
Proof. split; vm_compute; reflexivity. Qed.



(** * Further properties of the converter *)

(** * Further properties of the converter *)

(** ** The key of [typeMap] *)

Lemma removeFinalBang_bang s : removeFinalBang (s ++ "!") = s.
Proof.
  induction s as [|c s IH]; [reflexivity|].
  cbn [append]. destruct s as [|c' s']; [reflexivity|].
  cbn [append] in *. cbn [removeFinalBang]. f_equal. exact IH.
Qed.

Lemma removeFinalBang_other s c :
  Ascii.eqb c "!" = false ->
  removeFinalBang (s ++ String c EmptyString)
  = (s ++ String c EmptyString)%string.
Proof.
  intros Hc. induction s as [|c0 s IH].
  - cbn. rewrite Hc. reflexivity.
  - cbn [append]. destruct s as [|c' s'].
    + cbn. rewrite Hc. reflexivity.
    + cbn [append] in *. cbn [removeFinalBang]. f_equal. exact IH.
Qed.

(** X1.  The name under which [fieldDefToOpenApiField] looks a type up in
    [typeMap] does not see the outer non-null wrapper: for a non-null type
    it is the name of the wrapped type, and the name of a list type is kept
    whole. *)
Theorem typeMap_key_drops_outer_bang :
  forall t,
    removeFinalBang (toString (GraphQLNonNull t)) = toString t
    /\ removeFinalBang (toString (GraphQLList t)) = toString (GraphQLList t).
Proof.
  intros t. split.
  - cbn [toString]. apply removeFinalBang_bang.
  - exact (removeFinalBang_other (String "[" (toString t)) "]" eq_refl).
Qed.

(** ** The scalar cache *)



(** ** Output types that no branch of [fieldDefToOpenApiField] names *)



(** X4.  A list whose items are enums, interfaces or lists gets no [items]:
    the node is [{type: 'array'}] whether or not the list is non-null, one
    new cell is all the call leaves, and neither the cache nor the
    callback is consulted. *)
Theorem list_of_enum_has_no_items :
  forall fd item cfg r h,
    unwrapNonNull (field_type fd) = GraphQLList item ->
    match unwrapNonNull item with
    | GraphQLEnumType _ _ _ | GraphQLInterfaceType _ | GraphQLList _ => True
    | _ => False
    end ->
    assoc (removeFinalBang (toString (field_type fd))) typeMap = None ->
    fieldDefToOpenApiField (Some fd) cfg r h
    = Ok (VRef (length h))
        (JSObject [("items", VUndefined); ("properties", VUndefined);
                   ("type", VString "array"); ("enum", VUndefined);
                   ("anyOf", VUndefined);
                   ("description", or_undefined (field_description fd))]
         :: h).
Proof.
  intros fd item cfg r h Hty Hitem Hmap. unfold fieldDefToOpenApiField.
  unfold bind at 1. unfold new_object, alloc. rewrite Hmap, Hty.
  unfold bind at 1. unfold set at 1. rewrite heap_lookup_new.
  cbn [heap_update]. rewrite Nat.eqb_refl.
  destruct (unwrapNonNull item); try contradiction; reflexivity.
Qed.

Lemma list_of_enum_has_no_items_witness :
  fieldDefToOpenApiField
    (Some {| field_name := "episodes";
             field_type :=
               GraphQLNonNull
                 (GraphQLList
                    (GraphQLEnumType "Episode"
                       [ {| ev_name := "JEDI"; ev_value := VString "JEDI" |} ]
                       VUndefined));
             field_description := VString "where" |})
    (VRef 0) defaultOnUnknownScalar Scenario.freshHeap
  = Ok (VRef (length Scenario.freshHeap))
      (JSObject [("items", VUndefined); ("properties", VUndefined);
                 ("type", VString "array"); ("enum", VUndefined);
                 ("anyOf", VUndefined);
                 ("description", or_undefined (VString "where"))]
       :: Scenario.freshHeap).
Proof.
  apply (list_of_enum_has_no_items
           {| field_name := "episodes";
              field_type :=
                GraphQLNonNull
                  (GraphQLList
                     (GraphQLEnumType "Episode"
                        [ {| ev_name := "JEDI"; ev_value := VString "JEDI" |} ]
                        VUndefined));
              field_description := VString "where" |}
           (GraphQLEnumType "Episode"
              [ {| ev_name := "JEDI"; ev_value := VString "JEDI" |} ]
              VUndefined)).
  - reflexivity.
  - exact I.
  - reflexivity.
Defined.

(** ** Lists of built-in scalars *)

(** X5.  For a list of a built-in scalar the node is an array whose items
    have the scalar's primitive of [typeMap]; the items admit "null"
    exactly when the item type is not wrapped in non-null, and the list
    admits "null" exactly when the list type is not, each independently of
    the other. *)
Theorem builtin_list_item_nullability :
  forall name primitive (outer inner : bool) fd cfg r h,
    builtinPrimitive name = Some primitive ->
    field_type fd
    = (let item := GraphQLScalarType name in
       let list :=
         GraphQLList (if inner then GraphQLNonNull item else item) in
       if outer then GraphQLNonNull list else list) ->
    exists node h' type itemsType,
      fieldDefToOpenApiField (Some fd) cfg r h = Ok node h'
      /\ get_prop h' node "type" = Some type
      /\ (exists items, get_prop h' node "items" = Some items
                        /\ get_prop h' items "type" = Some itemsType)
      /\ isOfTypeOrContains h' type "array" = true
      /\ isOfTypeOrContains h' type "null" = negb outer
      /\ isOfTypeOrContains h' itemsType primitive = true
      /\ isOfTypeOrContains h' itemsType "null" = negb inner.
Proof.
  intros name primitive outer inner fd cfg r h Hp Hty.
  unfold builtinPrimitive, typeMap in Hp. cbn [assoc] in Hp.
  repeat match type of Hp with
         | context [String.eqb name ?k] =>
             destruct (String.eqb_spec name k) as [->|_];
             [ cbn in Hp; try discriminate Hp; injection Hp as <-;
               unfold fieldDefToOpenApiField; rewrite Hty;
               destruct outer, inner; cbn [negb];
               unfold bind, literal, spread, new_object, new_array, alloc,
                 get, set, ret;
               heap_eval;
               do 4 eexists;
               (split; [reflexivity|]);
               (split; [heap_eval; reflexivity|]);
               (split; [eexists; split; [heap_eval; reflexivity | heap_eval; reflexivity]|]);
               (split; [unfold isOfTypeOrContains; heap_eval; reflexivity|]);
               (split; [unfold isOfTypeOrContains; heap_eval; reflexivity|]);
               (split; [unfold isOfTypeOrContains; heap_eval; reflexivity|]);
               unfold isOfTypeOrContains; heap_eval; reflexivity
             | ]
         end.
  discriminate Hp.
Qed.

(** ** The input type mapper *)

Lemma ltb_50_false depth : depth <= 50 -> Nat.ltb 50 depth = false.
Proof. intros H. apply Nat.ltb_ge. exact H. Qed.

Lemma ltb_50_true depth : 50 < depth -> Nat.ltb 50 depth = true.
Proof. intros H. apply Nat.ltb_lt. exact H. Qed.

Lemma recurseInputTypeFuel_builtin fuel schema name primitive depth cfg r h :
  builtinPrimitive name = Some primitive ->
  depth <= 50 ->
  recurseInputTypeFuel (S fuel) schema (Some (GraphQLScalarType name)) depth
    cfg r h
  = Ok (VRef (S (length h)))
      (JSObject [("type", VRef (length h))]
       :: JSArray [VString primitive; VString "null"] [] :: h).
Proof.
  intros Hp Hd. cbn [recurseInputTypeFuel]. rewrite (ltb_50_false _ Hd).
  unfold builtinPrimitive, typeMap in Hp. cbn [assoc] in Hp.
  repeat match type of Hp with
         | context [String.eqb name ?k] =>
             destruct (String.eqb_spec name k) as [->|_];
             [ cbn in Hp; try discriminate Hp; injection Hp as <-;
               reflexivity
             | ]
         end.
  discriminate Hp.
Qed.

(** X6.  The input mapper gives a built-in scalar the same primitive as
    [typeMap], as [[primitive, 'null']]; under a non-null wrapper the type
    is the bare primitive.  Neither the cache nor the callback is
    consulted: the result is the same for all of them. *)
Theorem input_builtin_scalar :
  forall schema name primitive depth cfg r h,
    builtinPrimitive name = Some primitive ->
    depth <= 49 ->
    recurseInputType schema (Some (GraphQLScalarType name)) depth cfg r h
    = Ok (VRef (S (length h)))
        (JSObject [("type", VRef (length h))]
         :: JSArray [VString primitive; VString "null"] [] :: h)
    /\ exists v h',
         recurseInputType schema
           (Some (GraphQLNonNull (GraphQLScalarType name))) depth cfg r h
         = Ok v h'
         /\ get_prop h' v "type" = Some (VString primitive).
Proof.
  intros schema name primitive depth cfg r h Hp Hd.
  rewrite !recurseInputType_unfold.
  destruct (51 - depth) as [|[|fuel]] eqn:E; try lia.
  split.
  - apply recurseInputTypeFuel_builtin; [exact Hp | lia].
  - remember (S fuel) as fuel1 eqn:Hf. cbn [recurseInputTypeFuel].
    rewrite (ltb_50_false depth) by lia. subst fuel1.
    unfold bind at 1.
    rewrite (recurseInputTypeFuel_builtin _ _ _ primitive) by (trivial; lia).
    unfold bind, spread, inspect, new_object, new_array, alloc, get, set, ret.
    heap_eval.
    assert (Hnull : String.eqb primitive "null" = false).
    { unfold builtinPrimitive, typeMap in Hp. cbn [assoc] in Hp.
      repeat match type of Hp with
             | context [String.eqb name ?k] =>
                 destruct (String.eqb_spec name k) as [->|_];
                 [ cbn in Hp; try discriminate Hp; injection Hp as <-;
                   reflexivity
                 | ]
             end.
      discriminate Hp. }
    rewrite Hnull. heap_eval. do 2 eexists. split; [reflexivity|].
    heap_eval. reflexivity.
Qed.

Lemma reduce_Throw {A B} (step : B -> A -> M B) x xs :
  In x xs ->
  (forall acc h, exists e h', step acc x h = Throw e h') ->
  forall init h, exists e h', reduce step xs init h = Throw e h'.
Proof.
  intros Hin Hx. induction xs as [|y ys IH]; [contradiction|].
  intros init h. cbn [reduce]. unfold bind.
  destruct Hin as [->|Hin].
  - destruct (Hx init h) as (e & h' & ->). eauto.
  - destruct (step init y h) as [acc h1|e h1]; [apply IH; exact Hin | eauto].
Qed.

Lemma recurseInputTypeFuel_cycle schema among :
  inputCycle schema among ->
  forall fuel t n d depth cfg r h,
    TypeInfo.getNamedType t = GraphQLInputObjectType n d ->
    among n ->
    exists e h',
      recurseInputTypeFuel fuel schema (Some t) depth cfg r h = Throw e h'.
Proof.
  intros Hcycle. induction fuel as [|fuel IH];
    intros t n d depth cfg r h Hnamed Hn; cbn [recurseInputTypeFuel].
  - destruct (Nat.ltb 50 depth); unfold throw; eauto.
  - destruct (Nat.ltb 50 depth); [unfold throw; eauto|].
    destruct t; cbn [TypeInfo.getNamedType] in Hnamed; try discriminate Hnamed.
    + injection Hnamed as -> ->.
      destruct (Hcycle n Hn) as (f & n' & d' & Hin & Hf & Hn').
      unfold bind at 1. unfold new_object at 1, alloc.
      edestruct (reduce_Throw
                   (fun properties f0 =>
                      bind (recurseInputTypeFuel fuel schema
                              (Some (field_type f0)) (depth + 1) cfg r)
                        (fun r0 =>
                           bind (set properties (field_name f0) r0)
                             (fun _ =>
                                bind (get properties (field_name f0))
                                  (fun p =>
                                     bind (set p "description"
                                             (field_description f0))
                                       (fun _ => ret properties)))))
                   f (getFields schema n) Hin) as (e & h' & Hthrow).
      { intros acc h0.
        destruct (IH (field_type f) n' d' (depth + 1) cfg r h0 Hf Hn')
          as (e & h' & He).
        exists e, h'. apply bind_Throw. exact He. }
      exists e, h'. apply bind_Throw. exact Hthrow.
    + unfold bind at 1. unfold new_array at 1, alloc.
      destruct (IH t n d (depth + 1) cfg r
                  (JSArray [VString "array"; VString "null"] [] :: h)
                  Hnamed Hn) as (e & h' & He).
      exists e, h'. apply bind_Throw. exact He.
    + destruct (IH t n d (depth + 1) cfg r h Hnamed Hn) as (e & h' & He).
      exists e, h'. apply bind_Throw. exact He.
Qed.

(** X7.  An input type that refers to itself through the fields of input
    objects, directly or under list and non-null wrappers, is never
    mapped: every call of [recurseInputType] on it ends in an exception,
    at whatever depth and with whatever cache and callback. *)
Theorem recursive_input_type_never_maps :
  forall schema among t n d depth cfg r h,
    inputCycle schema among ->
    TypeInfo.getNamedType t = GraphQLInputObjectType n d ->
    among n ->
    exists e h', recurseInputType schema (Some t) depth cfg r h = Throw e h'.
Proof.
  intros schema among t n d depth cfg r h Hcycle Hnamed Hn.
  rewrite recurseInputType_unfold.
  eapply recurseInputTypeFuel_cycle; eassumption.
Qed.

Lemma recurseInputTypeFuel_nested schema cfg r k :
  forall fuel depth h,
    fuel + depth = 51 ->
    (depth + k <= 50 ->
     exists v h',
       recurseInputTypeFuel fuel schema
         (Some (nested k (GraphQLScalarType "String"))) depth cfg r h
       = Ok v h')
    /\ (50 < depth + k ->
        exists h',
          recurseInputTypeFuel fuel schema
            (Some (nested k (GraphQLScalarType "String"))) depth cfg r h
          = Throw (Error "depth limit exceeded: 51") h').
Proof.
  induction k as [|k IH]; intros fuel depth h Hfuel; cbn [nested].
  - split; intros Hd.
    + destruct fuel as [|fuel]; [lia|].
      rewrite (recurseInputTypeFuel_builtin _ _ _ "string") by
        (trivial; lia).
      eauto.
    + assert (depth = 51) as -> by lia.
      destruct fuel; cbn [recurseInputTypeFuel]; eexists; reflexivity.
  - destruct fuel as [|fuel].
    + assert (depth = 51) as -> by lia.
      split; intros Hd; [lia|]. eexists. reflexivity.
    + cbn [recurseInputTypeFuel]. rewrite (ltb_50_false depth) by lia.
      unfold bind at 1 3. unfold new_array at 1 2, alloc.
      destruct (IH fuel (depth + 1)
                  (JSArray [VString "array"; VString "null"] [] :: h))
        as [Hok Hthrow]; [lia|].
      split; intros Hd.
      * destruct Hok as (v & h' & Hv); [lia|].
        unfold bind. rewrite Hv. unfold new_object, alloc. eauto.
      * destruct Hthrow as (h' & Hv); [lia|].
        exists h'. apply bind_Throw. exact Hv.
Qed.

(** X8.  The depth guard lets fifty levels of nesting through and no
    more: a variable type of [k] list wrappers around [String] is mapped
    when [k <= 50], and for any deeper nesting the call throws
    ['depth limit exceeded: 51']. *)
Theorem depth_limit_is_fifty :
  forall schema cfg r k h,
    (k <= 50 ->
     exists v h',
       recurseInputType schema
         (Some (nested k (GraphQLScalarType "String"))) 0 cfg r h = Ok v h')
    /\ (50 < k ->
        exists h',
          recurseInputType schema
            (Some (nested k (GraphQLScalarType "String"))) 0 cfg r h
          = Throw (Error "depth limit exceeded: 51") h').
Proof.
  intros schema cfg r k h. rewrite recurseInputType_unfold.
  apply (recurseInputTypeFuel_nested schema cfg r k (51 - 0) 0 h).
  reflexivity.
Qed.

(** ** The constructor and the gates of [toOpenAPI] *)

Section Gates.

Variable IntrospectionQuery : Type.
Variable buildSchema : StringOrSource -> GraphQLError + GraphQLSchema.
Variable buildClientSchema : IntrospectionQuery -> GraphQLError + GraphQLSchema.
Variable parse : StringOrSource -> GraphQLError + DocumentNode.
Variable validate : GraphQLSchema -> DocumentNode -> list GraphQLError.

(** X9.  The constructor throws [MissingSchemaError] exactly when no
    introspection result is given and the schema is absent or the empty
    string; in every other case it returns an engine, never throwing on a
    schema that fails to build, and the engine holds either a schema or a
    schema error, not both. *)
Theorem constructor_missing_schema :
  forall schema introspectionSchema onUnknownScalar scalarConfig h,
    (introspectionSchema = None
     /\ (schema = None \/ schema = Some (Text EmptyString)) ->
     exists h',
       constructor IntrospectionQuery buildSchema buildClientSchema schema
         introspectionSchema onUnknownScalar scalarConfig h
       = Throw (MissingSchemaError
                  "neither schema nor introspection schema supplied") h')
    /\ (~ (introspectionSchema = None
           /\ (schema = None \/ schema = Some (Text EmptyString))) ->
        exists this h',
          constructor IntrospectionQuery buildSchema buildClientSchema schema
            introspectionSchema onUnknownScalar scalarConfig h
          = Ok this h'
          /\ (graphqlSchema this = None <-> schemaError this <> None)).
Proof.
  intros schema intro r cfg h. unfold constructor. split.
  - intros [-> Hs]. unfold bind.
    destruct cfg as [c|]; [destruct (truthy c)|];
      destruct Hs as [-> | ->]; cbn; eauto.
  - intros Hnot. unfold bind.
    assert (Hbuilt : forall b : GraphQLError + GraphQLSchema,
               forall f c,
                 graphqlSchema
                   match b with
                   | inr s => {| graphqlSchema := Some s; schemaError := None;
                                 onUnknownScalar := f; scalarConfig := c |}
                   | inl err => {| graphqlSchema := None;
                                   schemaError := Some err;
                                   onUnknownScalar := f; scalarConfig := c |}
                   end = None
                 <-> schemaError
                       match b with
                       | inr s => {| graphqlSchema := Some s;
                                     schemaError := None;
                                     onUnknownScalar := f;
                                     scalarConfig := c |}
                       | inl err => {| graphqlSchema := None;
                                       schemaError := Some err;
                                       onUnknownScalar := f;
                                       scalarConfig := c |}
                       end <> None).
    { intros [err|s] f c; cbn; split; congruence. }
    destruct cfg as [c|]; [destruct (truthy c)|]; cbn;
      (destruct schema as [[[|a b]|b l]|]; destruct intro as [i|];
       try (exfalso; apply Hnot; auto; fail);
       unfold ret; do 2 eexists; (split; [reflexivity | apply Hbuilt])).
Qed.

(** X10.  A schema that fails to build is not an exception of the
    constructor: the engine is returned, and each of its [toOpenAPI] calls
    answers [{ schemaError }] with the build error, for every query and
    without consulting the parser, the validator or the heap. *)
Theorem schema_error_surfaces_on_every_call :
  forall source err onUnknownScalar scalarConfig h,
    source <> Text EmptyString ->
    buildSchema source = inl err ->
    exists this h',
      constructor IntrospectionQuery buildSchema buildClientSchema
        (Some source) None onUnknownScalar scalarConfig h = Ok this h'
      /\ forall query h2,
           toOpenAPI parse validate this query h2
           = Ok {| result_queryErrors := None; result_error := None;
                   result_schemaError := Some err;
                   result_openApiSchema := None |} h2.
Proof.
  intros source err r cfg h Hne Hbuild. unfold constructor, bind.
  destruct cfg as [c|]; [destruct (truthy c)|]; cbn;
    (destruct source as [[|a b]|b l]; [congruence | |]);
    rewrite Hbuild; unfold ret; do 2 eexists; (split; [reflexivity|]);
    intros query h2; reflexivity.
Qed.

(** The four ways in which [toOpenAPI] returns. *)
Lemma toOpenAPI_Ok this query h r h' :
  toOpenAPI parse validate this query h = Ok r h' ->
  (exists e,
      schemaError this = Some e /\ h' = h
      /\ r = {| result_queryErrors := None; result_error := None;
                result_schemaError := Some e;
                result_openApiSchema := None |})
  \/ (exists e,
         schemaError this = None /\ parse query = inl e /\ h' = h
         /\ r = {| result_queryErrors := Some [e]; result_error := None;
                   result_schemaError := None;
                   result_openApiSchema := None |})
  \/ (exists doc schema e es,
         schemaError this = None /\ parse query = inr doc
         /\ graphqlSchema this = Some schema
         /\ validate schema doc = e :: es /\ h' = h
         /\ r = {| result_queryErrors := Some (e :: es); result_error := None;
                   result_schemaError := None;
                   result_openApiSchema := None |})
  \/ (exists doc schema s,
         schemaError this = None /\ parse query = inr doc
         /\ graphqlSchema this = Some schema
         /\ validate schema doc = []
         /\ visit (scalarConfig this) (onUnknownScalar this) schema
              (locationOffsetLine query)
              (TypeInfo.documentEvents schema doc)
              (initialVisitor (fst (build skeleton h)))
              (snd (build skeleton h)) = Ok s h'
         /\ r = match error s with
                | Some e =>
                    {| result_queryErrors := None; result_error := Some e;
                       result_schemaError := None;
                       result_openApiSchema := None |}
                | None =>
                    {| result_queryErrors := None; result_error := None;
                       result_schemaError := None;
                       result_openApiSchema := Some (fst (build skeleton h)) |}
                end).
Proof.
  intros H. pose proof H as Hwalk. unfold toOpenAPI in H.
  destruct (schemaError this) as [e|] eqn:Herr.
  { left. unfold ret in H. injection H as <- <-. eauto. }
  destruct (parse query) as [e|doc] eqn:Hparse.
  { right. left. unfold ret in H. injection H as <- <-. exists e. auto. }
  destruct (graphqlSchema this) as [schema|] eqn:Hschema; [|discriminate H].
  destruct (validate schema doc) as [|e es] eqn:Hvalid.
  - right. right. right. clear H.
    rewrite (toOpenAPI_walk parse validate this query doc schema h)
      in Hwalk by assumption.
    exists doc, schema.
    destruct (visit _ _ _ _ _ _ _) as [s h2|e h2] eqn:Hvisit;
      [|discriminate].
    injection Hwalk as <- <-. exists s.
    repeat (split; [assumption || reflexivity|]). reflexivity.
  - right. right. left. unfold ret in H. injection H as <- <-.
    exists doc, schema, e, es.
    repeat (split; [assumption || reflexivity|]). reflexivity.
Qed.

(** X11.  A result of [toOpenAPI] is a variant: exactly one of
    [queryErrors], [error], [schemaError] and [openApiSchema] is set. *)
Theorem result_is_one_variant :
  forall this query h r h',
    toOpenAPI parse validate this query h = Ok r h' ->
    fieldsSet r = 1.
Proof.
  intros this query h r h' H.
  apply toOpenAPI_Ok in H
    as [(e & _ & _ & ->)
       | [(e & _ & _ & _ & ->)
         | [(doc & schema & e & es & _ & _ & _ & _ & _ & ->)
           | (doc & schema & s & _ & _ & _ & _ & _ & ->)]]];
    try reflexivity.
  destruct (error s); reflexivity.
Qed.

(** X12.  A call that answers [{ schemaError }] or [{ queryErrors }] has
    not touched the heap, so neither the scalar cache; the query errors
    are the parser's one error or the validator's whole list, never an
    empty list. *)
Theorem rejected_call_leaves_heap :
  forall this query h r h',
    toOpenAPI parse validate this query h = Ok r h' ->
    (forall e, result_schemaError r = Some e ->
               schemaError this = Some e /\ h' = h)
    /\ (forall es, result_queryErrors r = Some es ->
                   h' = h /\ es <> []
                   /\ ((exists e, parse query = inl e /\ es = [e])
                       \/ exists doc schema,
                            parse query = inr doc
                            /\ graphqlSchema this = Some schema
                            /\ validate schema doc = es)).
Proof.
  intros this query h r h' H.
  apply toOpenAPI_Ok in H
    as [(e & He & -> & ->)
       | [(e & _ & Hp & -> & ->)
         | [(doc & schema & e & es & _ & Hp & Hs & Hv & -> & ->)
           | (doc & schema & s & _ & _ & _ & _ & _ & ->)]]].
  - split; cbn; [intros e' [= <-]; auto | discriminate].
  - split; cbn; [discriminate|]. intros es [= <-].
    repeat split; [discriminate|]. left. eauto.
  - split; cbn; [discriminate|]. intros es' [= <-].
    repeat split; [discriminate|]. right. eauto.
  - destruct (error s); split; cbn; discriminate.
Qed.

(** The handler that asks to stop is the enter handler of an operation
    without a name. *)
Lemma handle_BREAK cfg r schema line ev s h s' h' :
  handle cfg r schema line ev s h = Ok (s', BREAK) h' ->
  exists loc,
    ev = EnterOperationDefinition loc None
    /\ option_map message (error s')
       = Some ("GraphQLToOpenAPIConverter requires a named " ++
               "operation on line " ++ string_of_nat line ++ " " ++
               "of input query")%string.
Proof.
  intros H. pose proof (handle_error _ _ _ _ _ _ _ _ _ _ H) as Hne.
  destruct ev; cbn [handle] in H.
  - unfold FragmentDefinition_enter in H. inv_ok.
  - unfold FragmentDefinition_leave in H. inv_ok.
  - unfold OperationDefinition_enter in H. destruct name as [name|].
    + inv_ok.
    + inv_ok. eexists. split; reflexivity.
  - inv_ok.
  - unfold VariableDefinition in H. inv_ok.
  - unfold FragmentSpread_enter in H. inv_ok.
  - unfold Field_enter in H. inv_ok.
  - unfold Field_leave in H. inv_ok.
  - unfold InlineFragment_enter in H. inv_ok.
  - unfold InlineFragment_leave in H. inv_ok.
  - inv_ok.
Qed.

Lemma visit_error cfg r schema line events :
  forall s h s1 h1 e,
    visit cfg r schema line events s h = Ok s1 h1 ->
    error s = None ->
    error s1 = Some e ->
    (exists loc, In (EnterOperationDefinition loc None) events)
    /\ message e
       = ("GraphQLToOpenAPIConverter requires a named " ++
          "operation on line " ++ string_of_nat line ++ " " ++
          "of input query")%string.
Proof.
  induction events as [|ev events IH]; intros s h s1 h1 e Hv Hs He.
  - cbn in Hv. unfold ret in Hv. injection Hv as <- <-. congruence.
  - rewrite visit_cons in Hv.
    destruct (handle cfg r schema line ev s h) as [[s' signal] h'|x h']
      eqn:Hh; [|discriminate].
    destruct signal.
    + apply handle_error in Hh.
      destruct (IH s' h' s1 h1 e Hv) as [[loc Hin] Hm];
        [congruence | assumption |].
      split; [exists loc; right; exact Hin | exact Hm].
    + injection Hv as <- <-.
      apply handle_BREAK in Hh as (loc & -> & Hm).
      rewrite He in Hm. cbn in Hm. injection Hm as Hm.
      split; [exists loc; left; reflexivity | exact Hm].
Qed.

(** The events of a selection are those of fields, spreads and inline
    fragments. *)
Lemma selectionEvents_no_operation schema loc name :
  forall sel type,
    ~ In (EnterOperationDefinition loc name)
        (TypeInfo.selectionEvents schema type sel).
Proof.
  fix IH 1. intros sel type.
  assert (Hall : forall sels type',
             (forall x, In x sels ->
                        forall t, ~ In (EnterOperationDefinition loc name)
                                      (TypeInfo.selectionEvents schema t x)) ->
             ~ In (EnterOperationDefinition loc name)
                 (flat_map (TypeInfo.selectionEvents schema type') sels)).
  { intros sels type' Hs Hin. apply in_flat_map in Hin as (x & Hx & Hin).
    exact (Hs x Hx _ Hin). }
  destruct sel as [l a n sels | l n | l tc sels];
    cbn [TypeInfo.selectionEvents].
  - intros [H|H]; [discriminate|].
    apply in_app_or in H as [H|[H|[]]]; [|discriminate].
    revert H. apply Hall. clear Hall.
    induction sels as [|x sels IHs]; intros y [].
    + subst y. apply IH.
    + apply IHs. assumption.
  - intros [H|[]]. discriminate.
  - intros [H|H]; [discriminate|].
    apply in_app_or in H as [H|[H|[]]]; [|discriminate].
    revert H. apply Hall. clear Hall.
    induction sels as [|x sels IHs]; intros y [].
    + subst y. apply IH.
    + apply IHs. assumption.
Qed.

Lemma documentEvents_operation schema doc loc name :
  In (EnterOperationDefinition loc name) (TypeInfo.documentEvents schema doc) ->
  exists operation variableDefinitions selectionSet,
    In (OperationDefinition loc operation name variableDefinitions
          selectionSet) doc.
Proof.
  unfold TypeInfo.documentEvents. intros H.
  apply in_app_or in H as [H|[H|[]]]; [|discriminate].
  apply in_flat_map in H as (def & Hdef & H).
  destruct def as [l op n vars sels | l n tc sels];
    cbn [TypeInfo.definitionEvents] in H.
  - destruct H as [H|H].
    + injection H as -> ->. eauto.
    + exfalso. apply in_app_or in H as [H|H].
      * apply in_map_iff in H as (v & Hv & _). discriminate.
      * apply in_app_or in H as [H|[H|[]]]; [|discriminate].
        apply in_flat_map in H as (x & _ & H).
        exact (selectionEvents_no_operation _ _ _ _ _ H).
  - exfalso. destruct H as [H|H]; [discriminate|].
    apply in_app_or in H as [H|[H|[]]]; [|discriminate].
    apply in_flat_map in H as (x & _ & H).
    exact (selectionEvents_no_operation _ _ _ _ _ H).
Qed.

(** X13.  [toOpenAPI] answers [{ error }] only for a document that holds
    an operation without a name, and the message names the line offset of
    the query's source. *)
Theorem error_only_for_anonymous_operation :
  forall this query h r h' e,
    toOpenAPI parse validate this query h = Ok r h' ->
    result_error r = Some e ->
    message e
    = ("GraphQLToOpenAPIConverter requires a named operation on line "
       ++ string_of_nat (locationOffsetLine query) ++ " of input query")%string
    /\ exists doc loc operation variableDefinitions selectionSet,
         parse query = inr doc
         /\ In (OperationDefinition loc operation None variableDefinitions
                  selectionSet) doc.
Proof.
  intros this query h r h' e H He.
  apply toOpenAPI_Ok in H
    as [(x & _ & _ & ->)
       | [(x & _ & _ & _ & ->)
         | [(doc & schema & x & es & _ & _ & _ & _ & _ & ->)
           | (doc & schema & s & _ & Hp & _ & _ & Hv & ->)]]];
    try discriminate He.
  destruct (error s) as [e'|] eqn:Hs; [|discriminate He].
  cbn in He. injection He as ->.
  apply (visit_error _ _ _ _ _ _ _ _ _ e) in Hv as [[loc Hin] Hm];
    [|reflexivity|exact Hs].
  split; [exact Hm|].
  apply documentEvents_operation in Hin as (op & vars & sels & Hin).
  exists doc, loc, op, vars, sels. auto.
Qed.

End Gates.

(** ** The stack of containers *)

Section Stack.

Variable scalarConfig : value.
Variable onUnknownScalar : Resolver.
Variable schema : GraphQLSchema.
Variable line : nat.

Local Abbreviation handle := (handle scalarConfig onUnknownScalar schema line).
Local Abbreviation visit := (visit scalarConfig onUnknownScalar schema line).

(** A walk over events that hold no operation without a name is not
    stopped half way. *)
Lemma visit_split pre post :
  (forall loc, ~ In (EnterOperationDefinition loc None) pre) ->
  forall s h s2 h2,
    visit (pre ++ post) s h = Ok s2 h2 ->
    exists s1 h1, visit pre s h = Ok s1 h1 /\ visit post s1 h1 = Ok s2 h2.
Proof.
  induction pre as [|ev pre IH]; intros Hno s h s2 h2 Hv.
  - exists s, h. split; [reflexivity | exact Hv].
  - rewrite <- app_comm_cons in Hv. rewrite visit_cons in Hv.
    destruct (handle ev s h) as [[s' signal] h'|e h'] eqn:Hh; [|discriminate].
    destruct signal.
    + apply IH in Hv as (s1 & h1 & H1 & H2);
        [|intros loc Hin; apply (Hno loc); right; exact Hin].
      exists s1, h1. rewrite visit_cons, Hh. auto.
    + apply handle_BREAK in Hh as (loc & -> & _).
      exfalso. apply (Hno loc). left. reflexivity.
Qed.

Lemma selectionSet_no_operation type sels loc name :
  ~ In (EnterOperationDefinition loc name)
      (flat_map (TypeInfo.selectionEvents schema type) sels).
Proof.
  intros H. apply in_flat_map in H as (x & _ & H).
  exact (selectionEvents_no_operation _ _ _ _ _ H).
Qed.

Lemma Field_enter_stack loc alias name fieldDef s h s' signal h' :
  Field_enter scalarConfig onUnknownScalar loc alias name fieldDef s h
  = Ok (s', signal) h' ->
  signal = Continue /\ (s' = s \/ exists v, s' = unshift loc v s).
Proof.
  unfold Field_enter. intros H. inv_ok.
  all: split; [reflexivity|]; split_ifs; eauto.
Qed.

Lemma InlineFragment_enter_stack loc s h s' signal h' :
  InlineFragment_enter loc s h = Ok (s', signal) h' ->
  signal = Continue /\ exists v, s' = unshift loc v s.
Proof.
  unfold InlineFragment_enter. intros H. inv_ok.
  all: split; [reflexivity|]; eauto.
Qed.

Lemma FragmentSpread_enter_stack name s h s' signal h' :
  FragmentSpread_enter name s h = Ok (s', signal) h' ->
  signal = Continue /\ s' = s.
Proof.
  unfold FragmentSpread_enter. intros H. inv_ok.
  all: split; reflexivity.
Qed.

Lemma shift_unshift loc v s h : shift (unshift loc v s) h = Ok (v, s) h.
Proof. destruct s. reflexivity. Qed.

(** A selection set is balanced when each of its selections is. *)
Lemma selectionSet_balanced sels :
  (forall x, In x sels ->
     forall type s h s1 h1,
       NoDup (locations x) ->
       (forall f rest, currentSelection s = f :: rest ->
                       ~ In (node f) (locations x)) ->
       visit (TypeInfo.selectionEvents schema type x) s h = Ok s1 h1 ->
       s1 = s) ->
  forall type s h s1 h1,
    NoDup (flat_map locations sels) ->
    (forall f rest, currentSelection s = f :: rest ->
                    ~ In (node f) (flat_map locations sels)) ->
    visit (flat_map (TypeInfo.selectionEvents schema type) sels) s h
    = Ok s1 h1 ->
    s1 = s.
Proof.
  induction sels as [|x sels IH]; intros Hall type s h s1 h1 Hnd Htop Hv.
  - cbn in Hv. unfold ret in Hv. injection Hv as <- <-. reflexivity.
  - cbn [flat_map] in *.
    apply visit_split in Hv as (sa & ha & Ha & Hb);
      [|intros loc; apply selectionEvents_no_operation].
    assert (sa = s) as ->.
    { apply (Hall x (or_introl eq_refl) type s h sa ha).
      - exact (NoDup_app_remove_r _ _ Hnd).
      - intros f rest E Hin. apply (Htop f rest E).
        apply in_or_app. left. exact Hin.
      - exact Ha. }
    apply (IH (fun y Hy => Hall y (or_intror Hy)) type s ha s1 h1).
    + exact (NoDup_app_remove_l _ _ Hnd).
    + intros f rest E Hin. apply (Htop f rest E).
      apply in_or_app. right. exact Hin.
    + exact Hb.
Qed.

Lemma selection_balanced :
  forall sel type s h s1 h1,
    NoDup (locations sel) ->
    (forall f rest, currentSelection s = f :: rest ->
                    ~ In (node f) (locations sel)) ->
    visit (TypeInfo.selectionEvents schema type sel) s h = Ok s1 h1 ->
    s1 = s.
Proof.
  fix IH 1. intros sel.
  assert (Hsub : forall sels,
             (fix sub (l : list SelectionNode) : Prop :=
                match l with
                | [] => True
                | y :: l' =>
                    (forall type s h s1 h1,
                        NoDup (locations y) ->
                        (forall f rest, currentSelection s = f :: rest ->
                                        ~ In (node f) (locations y)) ->
                        visit (TypeInfo.selectionEvents schema type y) s h
                        = Ok s1 h1 ->
                        s1 = s)
                    /\ sub l'
                end) sels ->
             forall x, In x sels ->
             forall type s h s1 h1,
               NoDup (locations x) ->
               (forall f rest, currentSelection s = f :: rest ->
                               ~ In (node f) (locations x)) ->
               visit (TypeInfo.selectionEvents schema type x) s h = Ok s1 h1 ->
               s1 = s).
  { induction sels as [|y sels IHs]; intros Hs x [].
    - subst x. exact (proj1 Hs).
    - apply IHs; [exact (proj2 Hs) | assumption]. }
  destruct sel as [loc alias name sels | loc name | loc tc sels];
    intros type s h s1 h1 Hnd Htop Hv;
    cbn [TypeInfo.selectionEvents locations] in *.
  - rewrite visit_cons in Hv.
    destruct (handle _ s h) as [[s' signal] h'|e h'] eqn:Hh; [|discriminate].
    cbn [handle] in Hh.
    pose proof (Field_enter_stack _ _ _ _ _ _ _ _ _ Hh) as [-> Hs'].
    apply visit_split in Hv as (sa & ha & Ha & Hb);
      [|intros l; apply selectionSet_no_operation].
    inversion Hnd as [|? ? Hnotin Hnd']; subst.
    assert (sa = s') as ->.
    { revert Ha. apply selectionSet_balanced; [|exact Hnd'|].
      - apply Hsub. clear - IH.
        induction sels as [|y sels IHs]; [exact I|].
        split; [apply IH | exact IHs].
      - destruct Hs' as [-> | [v ->]].
        + intros f rest E Hin. apply (Htop f rest E). right. exact Hin.
        + intros f rest E. cbn in E. injection E as <- _. exact Hnotin. }
    rewrite visit_cons in Hb. cbn [handle] in Hb.
    unfold Field_leave in Hb.
    destruct Hs' as [-> | [v ->]].
    + revert Hb. destruct (currentSelection s) as [|f rest] eqn:E;
        [discriminate|].
      destruct (Nat.eqb_spec (node f) loc) as [Heq|Hne].
      * exfalso. apply (Htop f rest eq_refl). left. symmetry. exact Heq.
      * cbn. unfold ret. intros [= <- _]. reflexivity.
    + cbn [unshift with_currentSelection currentSelection node] in Hb.
      rewrite Nat.eqb_refl in Hb. revert Hb. unfold bind.
      change (with_currentSelection
                ({| node := loc; openApiType := v |} :: currentSelection s) s)
        with (unshift loc v s).
      rewrite shift_unshift. cbn. unfold ret. intros [= <- _]. reflexivity.
  - rewrite visit_cons in Hv.
    destruct (handle _ s h) as [[s' signal] h'|e h'] eqn:Hh; [|discriminate].
    cbn [handle] in Hh.
    apply FragmentSpread_enter_stack in Hh as [-> ->].
    cbn in Hv. unfold ret in Hv. injection Hv as <- _. reflexivity.
  - rewrite visit_cons in Hv.
    destruct (handle _ s h) as [[s' signal] h'|e h'] eqn:Hh; [|discriminate].
    cbn [handle] in Hh.
    apply InlineFragment_enter_stack in Hh as [-> [v ->]].
    apply visit_split in Hv as (sa & ha & Ha & Hb);
      [|intros l; apply selectionSet_no_operation].
    inversion Hnd as [|? ? Hnotin Hnd']; subst.
    assert (sa = unshift loc v s) as ->.
    { revert Ha. apply selectionSet_balanced; [|exact Hnd'|].
      - apply Hsub. clear - IH.
        induction sels as [|y sels IHs]; [exact I|].
        split; [apply IH | exact IHs].
      - intros f rest E. cbn in E. injection E as <- _. exact Hnotin. }
    rewrite visit_cons in Hb. cbn [handle] in Hb.
    unfold InlineFragment_leave in Hb. revert Hb. unfold bind.
    rewrite shift_unshift. cbn. unfold ret. intros [= <- _]. reflexivity.
Qed.

(** X14.  The walk over a selection set leaves the stack of containers,
    and the rest of the visitor's state, as it found them: each field pops
    the frame it pushed and no other, provided that the nodes of the
    selection set have [loc] objects of their own, none of them the one
    of the frame on top. *)
Theorem selection_walk_restores_stack :
  forall type selectionSet s h s1 h1,
    NoDup (flat_map locations selectionSet) ->
    (forall f rest, currentSelection s = f :: rest ->
                    ~ In (node f) (flat_map locations selectionSet)) ->
    visit (flat_map (TypeInfo.selectionEvents schema type) selectionSet) s h
    = Ok s1 h1 ->
    s1 = s.
Proof.
  intros type sels. apply selectionSet_balanced.
  intros x _. apply selection_balanced.
Qed.

(** X15.  Once the walk has left the definition of a fragment, the table
    of fragments holds under its name the node that the enter handler
    built, and nothing else of the visitor's state has changed: the stack
    is as it was before the definition. *)
Theorem fragment_definition_registers_node :
  forall loc name typeCondition selectionSet s h s1 h1,
    NoDup (loc :: flat_map locations selectionSet) ->
    visit (TypeInfo.definitionEvents schema
             (FragmentDefinition loc name typeCondition selectionSet)) s h
    = Ok s1 h1 ->
    exists v h0,
      FragmentDefinition_enter loc
        (TypeInfo.only TypeInfo.isOutputType (getType schema typeCondition))
        s h
      = Ok (unshift loc v s, Continue) h0
      /\ s1 = with_fragments (assoc_set name v (fragments s)) s.
Proof.
  intros loc name tc sels s h s1 h1 Hnd Hv.
  cbn [TypeInfo.definitionEvents] in Hv.
  rewrite visit_cons in Hv. cbn [handle] in Hv.
  destruct (FragmentDefinition_enter loc _ s h) as [[s' signal] h0|e h0]
    eqn:Henter; [|discriminate].
  assert (Hs' : signal = Continue /\ exists v, s' = unshift loc v s).
  { unfold FragmentDefinition_enter in Henter. inv_ok.
    all: split; [reflexivity|]; eauto. }
  destruct Hs' as [-> [v ->]].
  exists v, h0. split; [reflexivity|].
  apply visit_split in Hv as (sa & ha & Ha & Hb);
    [|intros l; apply selectionSet_no_operation].
  inversion Hnd as [|? ? Hnotin Hnd']; subst.
  assert (sa = unshift loc v s) as ->.
  { revert Ha. apply selectionSet_balanced; [|exact Hnd'|].
    - intros x _. apply selection_balanced.
    - intros f rest E. cbn in E. injection E as <- _. exact Hnotin. }
  rewrite visit_cons in Hb. cbn [handle] in Hb.
  unfold FragmentDefinition_leave in Hb. revert Hb. unfold bind.
  rewrite shift_unshift. cbn. unfold ret. intros [= <- _]. reflexivity.
Qed.

End Stack.

(** ** Selections that the handlers cannot place *)

Lemma get_prop_old h o v k :
  allocated h v -> get_prop (o :: h) v k = get_prop h v k.
Proof.
  intros (l & c & -> & Hl). unfold get_prop.
  rewrite (heap_lookup_old h o l c Hl), Hl. reflexivity.
Qed.

Lemma allocated_old h o v : allocated h v -> allocated (o :: h) v.
Proof.
  intros (l & c & -> & Hl). exists l, c. split; [reflexivity|].
  apply heap_lookup_old. exact Hl.
Qed.

(** X16.  An inline fragment is placed in the [anyOf] of a union
    container.  When the container on top of the stack has no [anyOf],
    neither of its own nor in its [items] (the node of an object, or of a
    list of objects), entering the inline fragment is a TypeError. *)
Theorem inline_fragment_needs_anyOf :
  forall loc s h f rest items,
    currentSelection s = f :: rest ->
    allocated h (openApiType f) ->
    get_prop h (openApiType f) "anyOf" = Some VUndefined ->
    get_prop h (openApiType f) "items" = Some items ->
    items = VUndefined
    \/ (allocated h items /\ get_prop h items "anyOf" = Some VUndefined) ->
    exists h', InlineFragment_enter loc s h = Throw TypeError h'.
Proof.
  intros loc s h f rest items Hcs Halloc Hany Hitems Hcase.
  unfold InlineFragment_enter. unfold bind at 1. unfold literal.
  cbn [build Str].
  set (h1 := JSObject [] :: h).
  set (h2 := JSObject _ :: h1).
  assert (Hany2 : get_prop h2 (openApiType f) "anyOf" = Some VUndefined).
  { unfold h2, h1. rewrite !get_prop_old; auto using allocated_old. }
  assert (Hitems2 : get_prop h2 (openApiType f) "items" = Some items).
  { unfold h2, h1. rewrite !get_prop_old; auto using allocated_old. }
  assert (Hopt : get_opt items "anyOf" h2 = Ok VUndefined h2).
  { destruct Hcase as [-> | [Hi Hia]]; [reflexivity|].
    assert (Hia2 : get_prop h2 items "anyOf" = Some VUndefined).
    { unfold h2, h1. rewrite !get_prop_old; auto using allocated_old. }
    destruct Hi as (l & c & -> & _). unfold get_opt, get.
    rewrite Hia2. reflexivity. }
  exists h2. unfold top. rewrite Hcs.
  unfold bind at 1. unfold ret at 1.
  unfold bind at 1. unfold get at 1. rewrite Hitems2.
  unfold bind at 1. rewrite Hopt.
  unfold bind at 1. cbn [truthy].
  unfold bind at 1. unfold get at 1. rewrite Hany2.
  reflexivity.
Qed.

(** X17.  A field is placed in the [properties] of an object container or
    of the [items] of a list container.  When the container on top of the
    stack has neither a [type] nor [items] (the node of a union), entering
    a field, [__typename] included, is a TypeError, raised after the
    field's own node has been built. *)
Theorem field_in_union_container_throws :
  forall cfg r loc alias name fieldDef s h f rest v h1,
    currentSelection s = f :: rest ->
    fieldDefToOpenApiField fieldDef cfg r h = Ok v h1 ->
    get_prop h1 (openApiType f) "type" = Some VUndefined ->
    get_prop h1 (openApiType f) "items" = Some VUndefined ->
    Field_enter cfg r loc alias name fieldDef s h = Throw TypeError h1.
Proof.
  intros cfg r loc alias name fd s h f rest v h1 Hcs Hmap Htype Hitems.
  unfold Field_enter. unfold bind at 1. rewrite Hmap.
  unfold top. rewrite Hcs.
  unfold bind at 1. unfold ret at 1.
  unfold bind at 1. unfold get at 1. rewrite Htype.
  unfold bind at 1. unfold inspect at 1.
  change (isOfTypeOrContains h1 VUndefined "object") with false.
  cbv iota. apply bind_Throw. unfold bind at 1. unfold get at 1.
  rewrite Hitems. reflexivity.
Qed.

(** ** Where a field's node is stored *)





(** ** The properties above on the scenarios *)

Lemma builtin_list_item_nullability_witness :
  exists node h' type itemsType,
    fieldDefToOpenApiField (Some Cases.countsField) (VRef 0)
      defaultOnUnknownScalar Scenario.freshHeap = Ok node h'
    /\ get_prop h' node "type" = Some type
    /\ (exists items, get_prop h' node "items" = Some items
                      /\ get_prop h' items "type" = Some itemsType)
    /\ isOfTypeOrContains h' type "array" = true
    /\ isOfTypeOrContains h' type "null" = true
    /\ isOfTypeOrContains h' itemsType "integer" = true
    /\ isOfTypeOrContains h' itemsType "null" = false.
Proof.
  apply (builtin_list_item_nullability "Int" "integer" false true
           Cases.countsField (VRef 0) defaultOnUnknownScalar
           Scenario.freshHeap);
    reflexivity.
Defined.

Lemma input_builtin_scalar_witness :
  recurseInputType Scenario.demoSchema (Some (GraphQLScalarType "Int")) 0
    (VRef 0) defaultOnUnknownScalar Scenario.freshHeap
  = Ok (VRef 2)
      [JSObject [("type", VRef 1)];
       JSArray [VString "integer"; VString "null"] [];
       JSObject []]
  /\ exists v h',
       recurseInputType Scenario.demoSchema
         (Some (GraphQLNonNull (GraphQLScalarType "Int"))) 0 (VRef 0)
         defaultOnUnknownScalar Scenario.freshHeap
       = Ok v h'
       /\ get_prop h' v "type" = Some (VString "integer").
Proof.
  apply (input_builtin_scalar Scenario.demoSchema "Int" "integer" 0 (VRef 0)
           defaultOnUnknownScalar Scenario.freshHeap);
    [reflexivity | lia].
Defined.

Lemma recursive_input_type_never_maps_witness :
  exists e h',
    recurseInputType Cases.treeSchema
      (Some (GraphQLNonNull (GraphQLInputObjectType "Node" VUndefined))) 0
      (VRef 0) defaultOnUnknownScalar Scenario.freshHeap
    = Throw e h'.
Proof.
  apply (recursive_input_type_never_maps Cases.treeSchema
           (fun n => n = "Node")
           (GraphQLNonNull (GraphQLInputObjectType "Node" VUndefined))
           "Node" VUndefined 0 (VRef 0) defaultOnUnknownScalar
           Scenario.freshHeap);
    [|reflexivity|reflexivity].
  intros n ->. do 3 eexists.
  split; [left; reflexivity|]. split; reflexivity.
Defined.

Lemma depth_limit_is_fifty_witness :
  exists h',
    recurseInputType Scenario.demoSchema
      (Some (nested 51 (GraphQLScalarType "String"))) 0 (VRef 0)
      defaultOnUnknownScalar Scenario.freshHeap
    = Throw (Error "depth limit exceeded: 51") h'.
Proof.
  apply (proj2 (depth_limit_is_fifty Scenario.demoSchema (VRef 0)
                  defaultOnUnknownScalar 51 Scenario.freshHeap)).
  lia.
Defined.

Lemma constructor_missing_schema_witness :
  exists h',
    constructor unit Scenario.buildSchema Scenario.buildClientSchema
      (Some (Text EmptyString)) None None None []
    = Throw (MissingSchemaError
               "neither schema nor introspection schema supplied") h'.
Proof.
  apply (proj1 (constructor_missing_schema unit Scenario.buildSchema
                  Scenario.buildClientSchema (Some (Text EmptyString)) None
                  None None [])).
  split; [reflexivity | right; reflexivity].
Defined.

Lemma schema_error_surfaces_on_every_call_witness :
  exists this h',
    constructor unit Scenario.buildSchema Scenario.buildClientSchema
      (Some (Text "type Query {")) None None None [] = Ok this h'
    /\ forall query h2,
         toOpenAPI Scenario.parse Scenario.validate this query h2
         = Ok {| result_queryErrors := None; result_error := None;
                 result_schemaError := Some "Syntax Error";
                 result_openApiSchema := None |} h2.
Proof.
  apply (schema_error_surfaces_on_every_call unit Scenario.buildSchema
           Scenario.buildClientSchema Scenario.parse Scenario.validate
           (Text "type Query {") "Syntax Error" None None []);
    [discriminate | reflexivity].
Defined.

Lemma result_is_one_variant_witness :
  exists r h',
    toOpenAPI Scenario.parse Scenario.validate
      (Scenario.converter defaultOnUnknownScalar) Scenario.getHeroText
      Scenario.freshHeap = Ok r h'
    /\ fieldsSet r = 1.
Proof.
  do 2 eexists. split; [vm_compute; reflexivity|].
  eapply (result_is_one_variant Scenario.parse Scenario.validate
            (Scenario.converter defaultOnUnknownScalar) Scenario.getHeroText
            Scenario.freshHeap).
  vm_compute. reflexivity.
Defined.

Lemma rejected_call_leaves_heap_witness :
  (forall e,
      result_schemaError
        {| result_queryErrors := Some ["Syntax Error"];
           result_error := None; result_schemaError := None;
           result_openApiSchema := None |} = Some e ->
      schemaError (Scenario.converter defaultOnUnknownScalar) = Some e
      /\ Scenario.freshHeap = Scenario.freshHeap)
  /\ (forall es,
         result_queryErrors
           {| result_queryErrors := Some ["Syntax Error"];
              result_error := None; result_schemaError := None;
              result_openApiSchema := None |} = Some es ->
         Scenario.freshHeap = Scenario.freshHeap /\ es <> []
         /\ ((exists e, Scenario.parse (Text "query {") = inl e /\ es = [e])
             \/ exists doc schema,
                  Scenario.parse (Text "query {") = inr doc
                  /\ graphqlSchema (Scenario.converter defaultOnUnknownScalar)
                     = Some schema
                  /\ Scenario.validate schema doc = es)).
Proof.
  apply (rejected_call_leaves_heap Scenario.parse Scenario.validate
           (Scenario.converter defaultOnUnknownScalar) (Text "query {")
           Scenario.freshHeap).
  reflexivity.
Defined.

Lemma error_only_for_anonymous_operation_witness :
  message
    {| message :=
         "GraphQLToOpenAPIConverter requires a named operation on line 1 of input query" |}
  = ("GraphQLToOpenAPIConverter requires a named operation on line "
     ++ string_of_nat (locationOffsetLine Scenario.anonymousText)
     ++ " of input query")%string
  /\ exists doc loc operation variableDefinitions selectionSet,
       Scenario.parse Scenario.anonymousText = inr doc
       /\ In (OperationDefinition loc operation None variableDefinitions
                selectionSet) doc.
Proof.
  eapply (error_only_for_anonymous_operation Scenario.parse Scenario.validate
            (Scenario.converter defaultOnUnknownScalar) Scenario.anonymousText
            Scenario.freshHeap);
    [vm_compute; reflexivity | reflexivity].
Defined.

Lemma selection_walk_restores_stack_witness :
  exists s1 h1,
    visit (VRef 0) defaultOnUnknownScalar Scenario.demoSchema 1
      (flat_map
         (TypeInfo.selectionEvents Scenario.demoSchema
            (Some (GraphQLObjectType "Query")))
         Cases.droidAndHero)
      (fst Scenario.enteredQ) (snd Scenario.enteredQ) = Ok s1 h1
    /\ s1 = fst Scenario.enteredQ.
Proof.
  do 2 eexists. split; [vm_compute; reflexivity|].
  eapply (selection_walk_restores_stack (VRef 0) defaultOnUnknownScalar
            Scenario.demoSchema 1 (Some (GraphQLObjectType "Query"))
            Cases.droidAndHero (fst Scenario.enteredQ)
            (snd Scenario.enteredQ)).
  - repeat constructor; cbn; intuition discriminate.
  - intros f rest E. injection E as <- _. cbn. intuition discriminate.
  - vm_compute. reflexivity.
Defined.

Lemma fragment_definition_registers_node_witness :
  exists s1 h1,
    visit (VRef 0) defaultOnUnknownScalar Scenario.demoSchema 1
      (TypeInfo.definitionEvents Scenario.demoSchema
         (FragmentDefinition 0 "F" "Query" [Field 1 None "name" []]))
      (initialVisitor (fst (build skeleton Scenario.freshHeap)))
      (snd (build skeleton Scenario.freshHeap)) = Ok s1 h1
    /\ exists v h0,
         FragmentDefinition_enter 0
           (TypeInfo.only TypeInfo.isOutputType
              (getType Scenario.demoSchema "Query"))
           (initialVisitor (fst (build skeleton Scenario.freshHeap)))
           (snd (build skeleton Scenario.freshHeap))
         = Ok (unshift 0 v
                 (initialVisitor (fst (build skeleton Scenario.freshHeap))),
               Continue) h0
         /\ s1 = with_fragments
                   (assoc_set "F" v
                      (fragments
                         (initialVisitor
                            (fst (build skeleton Scenario.freshHeap)))))
                   (initialVisitor (fst (build skeleton Scenario.freshHeap))).
Proof.
  do 2 eexists. split; [vm_compute; reflexivity|].
  eapply (fragment_definition_registers_node (VRef 0) defaultOnUnknownScalar
            Scenario.demoSchema 1 0 "F" "Query" [Field 1 None "name" []]).
  - repeat constructor; cbn; intuition discriminate.
  - vm_compute. reflexivity.
Defined.

Lemma inline_fragment_needs_anyOf_witness :
  exists h',
    InlineFragment_enter 2 (fst Cases.insideDroid) (snd Cases.insideDroid)
    = Throw TypeError h'.
Proof.
  apply (inline_fragment_needs_anyOf 2 (fst Cases.insideDroid)
           (snd Cases.insideDroid) {| node := 1; openApiType := VRef 16 |}
           [{| node := 0; openApiType := VRef 8 |}] VUndefined).
  - reflexivity.
  - do 2 eexists. split; reflexivity.
  - reflexivity.
  - reflexivity.
  - left. reflexivity.
Defined.

Lemma field_in_union_container_throws_witness :
  exists h1,
    Field_enter (VRef 0) defaultOnUnknownScalar 1 None "__typename"
      (Some TypeInfo.TypeNameMetaFieldDef) (fst Cases.insideUnion)
      (snd Cases.insideUnion)
    = Throw TypeError h1.
Proof.
  eexists.
  eapply (field_in_union_container_throws (VRef 0) defaultOnUnknownScalar 1
            None "__typename" (Some TypeInfo.TypeNameMetaFieldDef)
            (fst Cases.insideUnion) (snd Cases.insideUnion)
            {| node := 0; openApiType := VRef 8 |} []).
  - reflexivity.
  - vm_compute. reflexivity.
  - reflexivity.
  - reflexivity.
Defined.

